(** * Gemini video analyzer: a shallow embedding of [streamlit.py]

    The script is a sequential pipeline around three outside parties: the
    local file system, the hosted model service reached through the
    [google.generativeai] client ([genai]) and the Streamlit runtime ([st]).
    All three are state the script reads and writes, so the embedding threads
    one [World] through every call:

    - the process: its environment variables, the module global
      [GEMINI_API_KEY], the [st.cache_resource] table and the object
      allocator that gives every constructed model handle its identity;
    - the local file system, a finite map from paths to contents;
    - the remote service, given as scripts: what each successive
      [genai.get_file], [genai.upload_file] and [send_message] answers.
      Theorems quantify over the scripts, so they cover every behaviour of
      the service along one run. What the client checks itself, before any
      request, is part of the client functions: it raises [ValueError] on
      an empty system instruction and on an empty message;
    - the trace: every call that leaves the process and every line printed,
      in the order they happen.

    A computation ends in one of three ways: it returns, it raises a Python
    exception, or it is still inside the poller's [while] loop when the
    fuel given to the run is used up. *)

From Stdlib Require Import Strings.Ascii Strings.String Strings.Byte.
From stdpp Require Import base option list strings gmap fin_maps.

Local Open Scope string_scope.
Local Open Scope list_scope.

(** ** Python values *)

(** A raised exception: the class it was raised with and its message. *)
Record Exception := mkException { exc_type : string; exc_msg : string }.

(** How a call ends. [Diverge] is a run whose fuel ran out inside a loop. *)
Inductive Outcome (A : Type) :=
| Return (a : A)
| Raise (e : Exception)
| Diverge.
Arguments Return {A} a.
Arguments Raise {A} e.
Arguments Diverge {A}.

(** The line feed that [print] appends. *)
Definition nl : string := String (ascii_of_nat 10) EmptyString.

(** [str.split(sep)] for a one-character separator: the pieces between the
    separators, never an empty list. *)
Fixpoint split (sep : ascii) (s : string) : list string :=
  match s with
  | EmptyString => [EmptyString]
  | String c rest =>
      if Ascii.eqb c sep then EmptyString :: split sep rest
      else match split sep rest with
           | seg :: segs => String c seg :: segs
           | [] => [String c EmptyString]
           end
  end.

(** [xs[-1]] on a list of strings that is known not to be empty. *)
Definition last_item (xs : list string) : string := List.last xs EmptyString.

(** [c in s] for a one-character string [c]. *)
Fixpoint has_char (c : ascii) (s : string) : bool :=
  match s with
  | EmptyString => false
  | String c' rest => Ascii.eqb c' c || has_char c rest
  end.

(** ** The data of the [genai] client *)

(** [file.state]: the client's [File.State] enumeration. *)
Inductive FileState := STATE_UNSPECIFIED | PROCESSING | ACTIVE | FAILED.

(** [file.state.name] *)
Definition state_name (s : FileState) : string :=
  match s with
  | STATE_UNSPECIFIED => "STATE_UNSPECIFIED"
  | PROCESSING => "PROCESSING"
  | ACTIVE => "ACTIVE"
  | FAILED => "FAILED"
  end.

(** A [genai] file object, with the attributes the script reads. *)
Record File := mkFile {
  name : string;
  display_name : string;
  uri : string;
  state : FileState
}.

(** A Python float, as the 64 bits of its IEEE-754 encoding: the value is
    only ever passed on and compared by the cache. *)
Definition float64 := N.

(** The [generation_config] dictionary of the script. *)
Record GenerationConfig := mkConfig {
  temperature : float64;
  top_p : float64;
  top_k : Z;
  max_output_tokens : Z;
  response_mime_type : string
}.

(** A [genai.GenerativeModel] object. [model_id] is the identity of the
    Python object: two handles are the same instance iff their ids agree.
    [model_name] is the name the object holds, which the constructor
    qualifies; [system_instruction] is the text that the instruction the
    object holds was converted from. *)
Record GenerativeModel := mkModel {
  model_id : nat;
  model_name : string;
  generation_config : GenerationConfig;
  system_instruction : string
}.

(** One element of a turn's ["parts"]: a string or a file object. *)
Inductive Part :=
| PartText (s : string)
| PartFile (f : File).

(** One entry of a chat history: [{"role": ..., "parts": [...]}]. *)
Record Content := mkContent { role : string; parts : list Part }.

(** The object [model.start_chat(history=...)] returns. *)
Record ChatSession := mkChat {
  chat_model : GenerativeModel;
  history : list Content
}.

(** The object [send_message] returns. *)
Record Response := mkResponse { text : string }.

(** An uploaded file as Streamlit hands it over: [video_file.name] and the
    bytes [video_file.read()] yields. *)
Record UploadedFile := mkUpload {
  upload_name : string;
  upload_bytes : list byte
}.

(** ** The world *)

(** What leaves the process, in order. *)
Inductive Event :=
| EvConfigure (api_key : option string)
| EvPrint (line : string)
| EvSleep (seconds : Z)
| EvUploadFile (path : string) (mime_type : option string) (data : list byte)
| EvGetFile (file_name : string)
| EvNewModel (m : GenerativeModel)
| EvStartChat (s : ChatSession)
| EvSendMessage (s : ChatSession) (message : string).

(** The arguments of [load_gemini_model], which key its cache. *)
Abbreviation CacheKey := (string * GenerationConfig * string)%type.

#[global] Instance FileState_eq_dec : EqDecision FileState.
Proof. solve_decision. Defined.

#[global] Instance GenerationConfig_eq_dec : EqDecision GenerationConfig.
Proof. solve_decision. Defined.

#[global] Instance GenerationConfig_countable : Countable GenerationConfig.
Proof.
  refine (inj_countable'
    (fun c => (temperature c, top_p c, top_k c, max_output_tokens c,
               response_mime_type c))
    (fun t => match t with (a, b, c, d, e) => mkConfig a b c d e end) _).
  intros []; reflexivity.
Defined.

Record World := mkWorld {
  environ : gmap string string;
  GEMINI_API_KEY : option string;
  model_cache : gmap CacheKey GenerativeModel;
  next_id : nat;
  fs : gmap string (list byte);
  remote_files : gmap string (list File);
  upload_script : list (Exception + File);
  chat_script : list (Exception + string);
  trace : list Event
}.

Definition set_environ (v : gmap string string) (w : World) : World :=
  mkWorld v (GEMINI_API_KEY w) (model_cache w) (next_id w) (fs w)
          (remote_files w) (upload_script w) (chat_script w) (trace w).

Definition set_api_key (v : option string) (w : World) : World :=
  mkWorld (environ w) v (model_cache w) (next_id w) (fs w)
          (remote_files w) (upload_script w) (chat_script w) (trace w).

Definition set_model_cache (v : gmap CacheKey GenerativeModel) (w : World) : World :=
  mkWorld (environ w) (GEMINI_API_KEY w) v (next_id w) (fs w)
          (remote_files w) (upload_script w) (chat_script w) (trace w).

Definition set_next_id (v : nat) (w : World) : World :=
  mkWorld (environ w) (GEMINI_API_KEY w) (model_cache w) v (fs w)
          (remote_files w) (upload_script w) (chat_script w) (trace w).

Definition set_fs (v : gmap string (list byte)) (w : World) : World :=
  mkWorld (environ w) (GEMINI_API_KEY w) (model_cache w) (next_id w) v
          (remote_files w) (upload_script w) (chat_script w) (trace w).

Definition set_remote_files (v : gmap string (list File)) (w : World) : World :=
  mkWorld (environ w) (GEMINI_API_KEY w) (model_cache w) (next_id w) (fs w)
          v (upload_script w) (chat_script w) (trace w).

Definition set_upload_script (v : list (Exception + File)) (w : World) : World :=
  mkWorld (environ w) (GEMINI_API_KEY w) (model_cache w) (next_id w) (fs w)
          (remote_files w) v (chat_script w) (trace w).

Definition set_chat_script (v : list (Exception + string)) (w : World) : World :=
  mkWorld (environ w) (GEMINI_API_KEY w) (model_cache w) (next_id w) (fs w)
          (remote_files w) (upload_script w) v (trace w).

Definition set_trace (v : list Event) (w : World) : World :=
  mkWorld (environ w) (GEMINI_API_KEY w) (model_cache w) (next_id w) (fs w)
          (remote_files w) (upload_script w) (chat_script w) v.

(** ** Computations *)

Definition M (A : Type) : Type := World -> Outcome A * World.

#[global] Instance M_ret : MRet M := fun A a w => (Return a, w).

#[global] Instance M_bind : MBind M := fun A B f m w =>
  match m w with
  | (Return a, w') => f a w'
  | (Raise e, w') => (Raise e, w')
  | (Diverge, w') => (Diverge, w')
  end.

(** [raise e] *)
Definition raise {A} (e : Exception) : M A := fun w => (Raise e, w).

(** The loop is still running when the fuel is gone. *)
Definition diverge {A} : M A := fun w => (Diverge, w).

Definition gets {A} (f : World -> A) : M A := fun w => (Return (f w), w).
Definition modify (f : World -> World) : M unit := fun w => (Return tt, f w).

(** The world after the events [es] happened, in that order. *)
Definition log (es : list Event) (w : World) : World :=
  set_trace (trace w ++ es) w.

(** Record one event at the end of the trace. *)
Definition emit (e : Event) : M unit := modify (log [e]).

(** [print(s)]: the text and a line feed. *)
Definition print (s : string) : M unit := emit (EvPrint (s +:+ nl)).

(** [print(s, end='', flush=True)]: the text and nothing after it. *)
Definition print_noeol (s : string) : M unit := emit (EvPrint s).

(** [for x in xs: body(x)] *)
Fixpoint for_each {A} (xs : list A) (body : A -> M unit) : M unit :=
  match xs with
  | [] => mret tt
  | x :: rest => body x ;; for_each rest body
  end.

(** ** The libraries the script calls *)

(** [from dotenv import load_dotenv]. [load_dotenv()] adds the variables of
    the [.env] file, given here as [dotenv] (empty when there is no file), to
    the environment; a variable that is already set keeps its value. *)
Definition load_dotenv (dotenv : gmap string string) : M unit :=
  modify (fun w => set_environ (environ w ∪ dotenv) w).

Module os.

(** [os.getenv(key)]: [None] when the variable is not set. *)
Definition getenv (key : string) : M (option string) :=
  gets (fun w => environ w !! key).

(** [os.path.exists(path)] *)
Definition path_exists (path : string) : M bool :=
  gets (fun w => bool_decide (is_Some (fs w !! path))).

(** [os.remove(path)] *)
Definition remove (path : string) : M unit := fun w =>
  match fs w !! path with
  | Some _ => (Return tt, set_fs (delete path (fs w)) w)
  | None => (Raise (mkException "FileNotFoundError" path), w)
  end.

(** [with open(path, "wb") as f: f.write(data)]: the file is created or
    replaced. *)
Definition write_file (path : string) (data : list byte) : M unit :=
  modify (fun w => set_fs (<[path := data]> (fs w)) w).

End os.

Module time.

(** [time.sleep(seconds)] *)
Definition sleep (seconds : Z) : M unit := emit (EvSleep seconds).

End time.

Module genai.

(** [genai.configure(api_key=...)]: stores the key in the client; no
    request is made and a missing key is not rejected. *)
Definition configure (api_key : option string) : M unit :=
  emit (EvConfigure api_key).

(** [genai.upload_file(path, mime_type=...)]: reads the local file and
    sends it; the service answers with the next entry of its script, a
    file object or an error. With no answer left the transport fails. *)
Definition upload_file (path : string) (mime_type : option string) : M File :=
  fun w =>
    match fs w !! path with
    | None => (Raise (mkException "FileNotFoundError" path), w)
    | Some data =>
        let w1 := log [EvUploadFile path mime_type data] w in
        match upload_script w1 with
        | inr f :: rest => (Return f, set_upload_script rest w1)
        | inl e :: rest => (Raise e, set_upload_script rest w1)
        | [] => (Raise (mkException "ConnectionError" path), w1)
        end
    end.

(** What remains of a file's script after one fetch: a last state stays. *)
Definition advance (snapshots : list File) : list File :=
  match snapshots with
  | _ :: (_ :: _) as rest => rest
  | _ => snapshots
  end.

(** [genai.get_file(name)]: the current snapshot of the remote file. *)
Definition get_file (file_name : string) : M File := fun w =>
  let w1 := log [EvGetFile file_name] w in
  match remote_files w1 !! file_name with
  | Some (f :: rest) =>
      (Return f,
       set_remote_files (<[file_name := advance (f :: rest)]> (remote_files w1)) w1)
  | _ => (Raise (mkException "NotFound" file_name), w1)
  end.

(** [model.start_chat(history=...)] *)
Definition start_chat (model : GenerativeModel) (history : list Content)
    : M ChatSession :=
  let s := mkChat model history in
  emit (EvStartChat s) ;; mret s.

(** What the client raises when it is to convert an empty value into
    content ([if not content: raise ValueError(...)]). It converts a system
    instruction when the model is constructed and a message before it sends
    it. *)
Definition empty_content : Exception :=
  mkException "ValueError"
    "Invalid input: 'content' argument must not be empty. Please provide a non-empty value.".

(** [chat_session.send_message(message)]: an empty message is refused by the
    client, before any request. Otherwise the message is sent and the
    service answers with the next entry of its script, the reply text or an
    error. *)
Definition send_message (s : ChatSession) (message : string) : M Response :=
  fun w =>
    if String.eqb message EmptyString then (Raise empty_content, w)
    else
      let w1 := log [EvSendMessage s message] w in
      match chat_script w1 with
      | inr reply :: rest => (Return (mkResponse reply), set_chat_script rest w1)
      | inl e :: rest => (Raise e, set_chat_script rest w1)
      | [] => (Raise (mkException "ConnectionError" message), w1)
      end.

(** The name a model object holds: [model_name] itself when it has a slash
    in it, ["models/" + model_name] otherwise. *)
Definition qualified (model_name : string) : string :=
  if has_char "/" model_name then model_name else "models/" +:+ model_name.

(** [genai.GenerativeModel(model_name=..., generation_config=...,
    system_instruction=...)]: an empty system instruction is refused;
    otherwise a new object, with an identity of its own. No request is
    made. *)
Definition GenerativeModel (model_name : string)
    (generation_config : GenerationConfig) (system_instruction : string)
    : M GenerativeModel := fun w =>
  if String.eqb system_instruction EmptyString then (Raise empty_content, w)
  else
    let m := mkModel (next_id w) (qualified model_name) generation_config
               system_instruction in
    (Return m, log [EvNewModel m] (set_next_id (S (next_id w)) w)).

End genai.

Module st.

(** [@st.cache_resource]: the decorated function runs once per distinct
    argument tuple; its result object is kept for the life of the process
    and handed out again, the very same object, on every later call with
    equal arguments. A call that raises stores nothing. *)
Definition cache_resource (key : CacheKey) (body : M GenerativeModel)
    : M GenerativeModel := fun w =>
  match model_cache w !! key with
  | Some m => (Return m, w)
  | None =>
      match body w with
      | (Return m, w') =>
          (Return m, set_model_cache (<[key := m]> (model_cache w')) w')
      | r => r
      end
  end.

End st.

(** ** The script *)

(** Lines 9-12: [load_dotenv()] and
    [GEMINI_API_KEY = os.getenv("GEMINI_API_KEY")]. *)
Definition module_start (dotenv : gmap string string) : M unit :=
  load_dotenv dotenv ;;
  key ← os.getenv "GEMINI_API_KEY";
  modify (set_api_key key).

(** [genai.configure(api_key=GEMINI_API_KEY)], reading the module global. *)
Definition configure_with_global : M unit :=
  key ← gets GEMINI_API_KEY;
  genai.configure key.

Definition load_gemini_model (model_name : string)
    (generation_config : GenerationConfig) (system_instruction : string)
    : M GenerativeModel :=
  st.cache_resource (model_name, generation_config, system_instruction)
    (configure_with_global ;;
     genai.GenerativeModel model_name generation_config system_instruction).

Definition upload_to_gemini (path : string) (mime_type : option string) : M File :=
  configure_with_global ;;
  file ← genai.upload_file path mime_type;
  print ("Uploaded file '" +:+ display_name file +:+ "' as: " +:+ uri file) ;;
  mret file.

(** The [while file.state.name == "PROCESSING"] loop of the poller, with the
    file fetched last; it returns the file that ended the loop. *)
Fixpoint while_processing (fuel : nat) (file_name : string) (file : File) : M File :=
  if String.eqb (state_name (state file)) "PROCESSING" then
    match fuel with
    | O => diverge
    | S fuel' =>
        print_noeol "." ;;
        time.sleep 10 ;;
        file' ← genai.get_file file_name;
        while_processing fuel' file_name file'
    end
  else mret file.

(** The body of the poller's [for] loop (lines 50-56), for one file name. *)
Definition poll_file (fuel : nat) (file_name : string) : M unit :=
  file ← genai.get_file file_name;
  file ← while_processing fuel file_name file;
  if negb (String.eqb (state_name (state file)) "ACTIVE") then
    raise (mkException "Exception" ("File " +:+ name file +:+ " failed to process"))
  else mret tt.

Definition wait_for_files_active (fuel : nat) (files : list File) : M unit :=
  configure_with_global ;;
  print "Waiting for file processing..." ;;
  for_each (map name files) (poll_file fuel) ;;
  print "...all files ready" ;;
  print EmptyString.

Definition analyze_video_from_url (url : string) (selected_model_name : string)
    (generation_config : GenerationConfig) (system_instruction : string)
    (input_prompt : string) : M string :=
  model ← load_gemini_model selected_model_name generation_config system_instruction;
  chat_session ← genai.start_chat model [mkContent "user" [PartText url]];
  response ← genai.send_message chat_session input_prompt;
  mret (text response).

(** Line 82: [video_path = "temp_video_" + video_file.name]. *)
Definition temp_video_path (video_file : UploadedFile) : string :=
  "temp_video_" +:+ upload_name video_file.

(** Line 86: [f"video/{video_path.split('.')[-1]}"]. *)
Definition video_mime_type (video_path : string) : string :=
  "video/" +:+ last_item (split "." video_path).

(** The first loop of [analyze_video_from_files] (lines 81-86). The two lists
    it appends to are threaded through and returned. *)
Fixpoint save_and_upload (video_files : list UploadedFile)
    (uploaded_files : list File) (temp_video_paths : list string)
    : M (list File * list string) :=
  match video_files with
  | [] => mret (uploaded_files, temp_video_paths)
  | video_file :: rest =>
      let video_path := temp_video_path video_file in
      let temp_video_paths := (temp_video_paths ++ [video_path]) in
      os.write_file video_path (upload_bytes video_file) ;;
      file ← upload_to_gemini video_path (Some (video_mime_type video_path));
      save_and_upload rest (uploaded_files ++ [file]) temp_video_paths
  end.

(** The last loop of [analyze_video_from_files] (lines 102-104). *)
Definition remove_temp_videos (temp_video_paths : list string) : M unit :=
  for_each temp_video_paths (fun video_path =>
    present ← os.path_exists video_path;
    if (present : bool) then os.remove video_path else mret tt).

Definition analyze_video_from_files (fuel : nat) (video_files : list UploadedFile)
    (selected_model_name : string) (generation_config : GenerationConfig)
    (system_instruction : string) (input_prompt : string) : M string :=
  '(uploaded_files, temp_video_paths) ← save_and_upload video_files [] [];
  wait_for_files_active fuel uploaded_files ;;
  model ← load_gemini_model selected_model_name generation_config system_instruction;
  chat_session ← genai.start_chat model [mkContent "user" (map PartFile uploaded_files)];
  response ← genai.send_message chat_session input_prompt;
  remove_temp_videos temp_video_paths ;;
  mret (text response).

(** ** Vocabulary of the statements *)

(** The events of [k] rounds of the poller's [while] loop on one file: a dot
    on the terminal, the 10-second sleep, the next fetch. *)
Fixpoint poll_events (file_name : string) (k : nat) : list Event :=
  match k with
  | O => []
  | S k' => EvPrint "." :: EvSleep 10 :: EvGetFile file_name :: poll_events file_name k'
  end.

(** The service answers the successive fetches of [file_name] with snapshots
    in these states, each carrying that name; the last state stays. *)
Definition scripted (w : World) (file_name : string) (states : list FileState) : Prop :=
  exists snapshots,
    remote_files w !! file_name = Some snapshots /\
    state <$> snapshots = states /\
    Forall (fun f => name f = file_name) snapshots.

(** The file is ACTIVE after at most [fuel] PROCESSING answers. *)
Definition becomes_active (w : World) (fuel : nat) (file_name : string) : Prop :=
  exists k, k <= fuel /\ scripted w file_name (replicate k PROCESSING ++ [ACTIVE]).

(** The handles in the cache are objects that were allocated, and no object
    is cached under two keys. Every run keeps this true. *)
Definition cache_wf (w : World) : Prop :=
  (forall key m, model_cache w !! key = Some m -> model_id m < next_id w) /\
  (forall key1 key2 m1 m2,
      model_cache w !! key1 = Some m1 -> model_cache w !! key2 = Some m2 ->
      model_id m1 = model_id m2 -> key1 = key2).



(** The upload that line 86 makes for one input file. *)
Definition upload_event (video_file : UploadedFile) : Event :=
  EvUploadFile (temp_video_path video_file)
    (Some (video_mime_type (temp_video_path video_file)))
    (upload_bytes video_file).

(** What one round of the first loop leaves in the trace, for the input file
    [video_file] whose upload the service answered with [file]: the
    configure call, the upload and the printed line. *)
Definition upload_round (key : option string) (video_file : UploadedFile)
    (file : File) : list Event :=
  [EvConfigure key;
   upload_event video_file;
   EvPrint (("Uploaded file '" +:+ display_name file +:+ "' as: " +:+ uri file)
            +:+ nl)].


(** The string has no dot in it. *)
Fixpoint has_dot (s : string) : bool :=
  match s with
  | EmptyString => false
  | String c rest => Ascii.eqb c "." || has_dot rest
  end.

Definition dotless (s : string) : Prop := has_dot s = false.

(** ** Fuel *)

(** The run ended: it returned or raised. *)
Definition settled {A} (r : Outcome A * World) : Prop := r.1 <> Diverge.

(** [m2] does what [m1] does wherever [m1] ends. *)
Definition extends {A} (m1 m2 : M A) : Prop :=
  forall w, settled (m1 w) -> m2 w = m1 w.

(** ** The life of the process *)

(** The entry points of the script that the page reaches, any number of
    times while the process lives. *)
Inductive Call :=
| CallLoad (model_name : string) (cfg : GenerationConfig) (instr : string)
| CallUrl (url model_name : string) (cfg : GenerationConfig) (instr prompt : string)
| CallFiles (fuel : nat) (files : list UploadedFile) (model_name : string)
    (cfg : GenerationConfig) (instr prompt : string).

(** The world after one call, however the call ended. *)
Definition after_call (c : Call) (w : World) : World :=
  match c with
  | CallLoad model_name cfg instr =>
      (load_gemini_model model_name cfg instr w).2
  | CallUrl url model_name cfg instr prompt =>
      (analyze_video_from_url url model_name cfg instr prompt w).2
  | CallFiles fuel files model_name cfg instr prompt =>
      (analyze_video_from_files fuel files model_name cfg instr prompt w).2
  end.

(** The world after a sequence of calls. *)
Definition after_calls (cs : list Call) (w : World) : World :=
  fold_left (fun w c => after_call c w) cs w.

(** From [w] to [w'] the cache stays well formed and loses no entry. *)
Definition cache_step (w w' : World) : Prop :=
  (cache_wf w -> cache_wf w') /\
  (forall key m, model_cache w !! key = Some m -> model_cache w' !! key = Some m).

(** The computation takes cache steps only. *)
Definition keeps_cache {A} (m : M A) : Prop := forall w, cache_step w (m w).2.

(** ** Concrete inputs *)

(** The [generation_config] of the script (lines 144-150); 0.3 is
    [0x3FD3333333333333] as a binary64. *)
Definition script_generation_config : GenerationConfig :=
  mkConfig 0x3FD3333333333333%N 0x3FD3333333333333%N 4 65536 "text/plain".

(** A fresh process: nothing set, nothing cached, an empty directory, a
    service that knows no file and answers nothing. *)
Definition empty_world : World := mkWorld ∅ None ∅ 0 ∅ ∅ [] [] [].

(** A snapshot of the remote file [n] in state [s]. *)
Definition snapshot (n : string) (s : FileState) : File :=
  mkFile n ("video " +:+ n) ("https://files.example/" +:+ n) s.

(** The service of the poller scenario: three files with the scripts
    [PROCESSING, PROCESSING, ACTIVE], [ACTIVE] and [PROCESSING, FAILED], and
    a fourth one. *)
Definition poller_world : World :=
  set_remote_files
    (<["files/one" := [snapshot "files/one" PROCESSING;
                       snapshot "files/one" PROCESSING;
                       snapshot "files/one" ACTIVE]]>
     (<["files/two" := [snapshot "files/two" ACTIVE]]>
      (<["files/three" := [snapshot "files/three" PROCESSING;
                           snapshot "files/three" FAILED]]>
       (<["files/four" := [snapshot "files/four" ACTIVE]]> ∅))))
    empty_world.

(** Two videos to analyze. *)
Definition two_videos : list UploadedFile :=
  [mkUpload "a.mp4" [x01%byte; x02%byte]; mkUpload "b.mov" [x03%byte]].

(** A service that accepts the two uploads, has both files ACTIVE after one
    and no PROCESSING answer, and answers the message as [chat]. *)
Definition upload_world (chat : list (Exception + string)) : World :=
  set_chat_script chat
    (set_upload_script [inr (snapshot "files/one" PROCESSING);
                        inr (snapshot "files/two" ACTIVE)]
       (set_remote_files
          (<["files/one" := [snapshot "files/one" PROCESSING;
                             snapshot "files/one" ACTIVE]]>
           (<["files/two" := [snapshot "files/two" ACTIVE]]> ∅))
          empty_world)).

(** ** What each part of the pipeline may do *)

(** The events the poller may leave: the configure call with the key of the
    process, printed text, fetches of files of its list and 10-second
    sleeps. *)
Definition poller_event (key : option string) (names : list string)
    (e : Event) : Prop :=
  match e with
  | EvConfigure k => k = key
  | EvPrint _ => True
  | EvSleep seconds => seconds = 10%Z
  | EvGetFile n => n ∈ names
  | _ => False
  end.

(** From [w] to [w'] only the scripts of the remote files moved on and only
    poller events were added. *)
Definition poller_step (key : option string) (names : list string)
    (w w' : World) : Prop :=
  exists es remote,
    w' = log es (set_remote_files remote w) /\
    Forall (poller_event key names) es.

(** The remote file never leaves PROCESSING. *)
Definition stuck (w : World) (file_name : string) : Prop :=
  exists snapshots,
    remote_files w !! file_name = Some snapshots /\
    snapshots <> [] /\
    Forall (fun f => state f = PROCESSING) snapshots.

(** A configure call that passes the key [key]; any other event. *)
Definition configured_with (key : option string) (e : Event) : Prop :=
  match e with
  | EvConfigure k => k = key
  | _ => True
  end.

(** From [w] to [w'] the process kept its environment and its API key, and
    every configure call that was made passed that key. *)
Definition process_step (w w' : World) : Prop :=
  environ w' = environ w /\
  GEMINI_API_KEY w' = GEMINI_API_KEY w /\
  exists es,
    trace w' = trace w ++ es /\
    Forall (configured_with (GEMINI_API_KEY w)) es.

(** The computation takes process steps only, however it ends. *)
Definition keeps_process {A} (m : M A) : Prop :=
  forall w, process_step w (m w).2.

(** ** The disk *)

(** The disk after the temporary copies of [files] were written, in order. *)
Definition write_all (files : list UploadedFile)
    (disk : gmap string (list byte)) : gmap string (list byte) :=
  fold_left (fun d vf => <[temp_video_path vf := upload_bytes vf]> d) files disk.

(** ** The page *)

(** What the script puts on the main area of the page. *)
#[warnings="-register-all"] Inductive Element :=
| ElSubheader (body : string)
| ElSpinner (label : string) (inside : list Element)
| ElMarkdown (body : string)
| ElExpander (label : string) (inside : list Element)
| ElCode (body : string) (language : string)
| ElError (body : string)
| ElWarning (body : string)
| ElInfo (body : string).

(** The values the widgets of the sidebar hold in one run of the script
    (lines 111-141) and whether the button of line 155 was pressed. *)
Record Widgets := mkWidgets {
  input_option : string;
  file_uploader : list UploadedFile;
  text_input : string;
  selected_model_name : string;
  system_instruction_text : string;
  input_prompt_text : string;
  button : bool
}.

(** Lines 115-121: [video_files], set by the uploader only when the first
    option is selected, [None] otherwise. *)
Definition video_files (ui : Widgets) : option (list UploadedFile) :=
  if String.eqb (input_option ui) "Upload Video File(s)"
  then Some (file_uploader ui) else None.

(** Lines 116-121: [video_url], set by the text input only when the second
    option is selected. *)
Definition video_url (ui : Widgets) : option string :=
  if String.eqb (input_option ui) "Upload Video File(s)" then None
  else if String.eqb (input_option ui) "Enter Video URL"
       then Some (text_input ui) else None.

(** [try: body except Exception as e: handler(e)] *)
Definition try_except {A} (body : M A) (handler : Exception -> M A) : M A :=
  fun w =>
    match body w with
    | (Raise e, w') => handler e w'
    | r => r
    end.

(** What both [try] blocks show when the analysis returned (lines 162-164
    and 176-178). *)
Definition show_summary (summary_text : string) : list Element :=
  [ElMarkdown summary_text;
   ElExpander "View raw markdown with Copy Button"
     [ElCode summary_text "markdown"]].

(** What both [except] blocks show (lines 166 and 180): [str(e)] behind a
    fixed text. *)
Definition show_error (e : Exception) : list Element :=
  [ElError ("An error occurred: " +:+ exc_msg e)].

(** The main area (lines 153-184): what the page shows after one run of the
    script. *)
Definition main_area (fuel : nat) (ui : Widgets) : M (list Element) :=
  page ←
    (if button ui then
       if String.eqb (input_option ui) "Upload Video File(s)" then
         match video_files ui with
         | Some (file :: files) =>
             inside ←
               try_except
                 (summary_text ←
                    analyze_video_from_files fuel (file :: files)
                      (selected_model_name ui) script_generation_config
                      (system_instruction_text ui) (input_prompt_text ui);
                  mret (show_summary summary_text))
                 (fun e => mret (show_error e));
             mret [ElSpinner "Analyzing video(s) from files..." inside]
         | _ => mret [ElWarning "Please upload video file(s)."]
         end
       else if String.eqb (input_option ui) "Enter Video URL" then
         match video_url ui with
         | Some (String c url) =>
             inside ←
               try_except
                 (summary_text ←
                    analyze_video_from_url (String c url)
                      (selected_model_name ui) script_generation_config
                      (system_instruction_text ui) (input_prompt_text ui);
                  mret (show_summary summary_text))
                 (fun e => mret (show_error e));
             mret [ElSpinner "Analyzing video from URL..." inside]
         | _ => mret [ElWarning "Please enter a video URL."]
         end
       else mret []
     else
       mret [ElInfo "Upload video file(s) or enter a video URL in the sidebar to analyze."]);
  mret (ElSubheader "Video Analysis Output" :: page).

(** * Reasoning about runs *)

Lemma bind_run {A B} (m : M A) (f : A -> M B) (w : World) :
  (m ≫= f) w =
  match m w with
  | (Return a, w') => f a w'
  | (Raise e, w') => (Raise e, w')
  | (Diverge, w') => (Diverge, w')
  end.
Proof. reflexivity. Qed.

Lemma bind_Return {A B} (m : M A) (f : A -> M B) w a w' :
  m w = (Return a, w') -> (m ≫= f) w = f a w'.
Proof. intros E. rewrite bind_run, E. reflexivity. Qed.

Lemma bind_Raise {A B} (m : M A) (f : A -> M B) w e w' :
  m w = (Raise e, w') -> (m ≫= f) w = (Raise e, w').
Proof. intros E. rewrite bind_run, E. reflexivity. Qed.

(** A bind that returned went through both halves. *)
Lemma bind_Return_inv {A B} (m : M A) (f : A -> M B) w b w2 :
  (m ≫= f) w = (Return b, w2) ->
  exists a w1, m w = (Return a, w1) /\ f a w1 = (Return b, w2).
Proof.
  rewrite bind_run. destruct (m w) as [[a|e|] w1]; intros E; try discriminate.
  eauto.
Qed.

Lemma ret_run {A} (a : A) w : (mret a : M A) w = (Return a, w).
Proof. reflexivity. Qed.

Lemma emit_run e w : emit e w = (Return tt, log [e] w).
Proof. reflexivity. Qed.

Lemma print_run s w : print s w = (Return tt, log [EvPrint (s +:+ nl)] w).
Proof. reflexivity. Qed.

Lemma configure_run w :
  configure_with_global w = (Return tt, log [EvConfigure (GEMINI_API_KEY w)] w).
Proof. reflexivity. Qed.

Lemma log_log es1 es2 w : log es2 (log es1 w) = log (es1 ++ es2) w.
Proof. unfold log, set_trace. cbn. by rewrite app_assoc. Qed.

Lemma get_file_run file_name f rest w :
  remote_files w !! file_name = Some (f :: rest) ->
  genai.get_file file_name w =
  (Return f,
   log [EvGetFile file_name]
     (set_remote_files (<[file_name := genai.advance (f :: rest)]> (remote_files w)) w)).
Proof. intros E. unfold genai.get_file. cbn. rewrite E. reflexivity. Qed.

Lemma processing_test (f : File) :
  String.eqb (state_name (state f)) "PROCESSING" = bool_decide (state f = PROCESSING).
Proof. destruct (state f); reflexivity. Qed.

Lemma active_test (f : File) :
  String.eqb (state_name (state f)) "ACTIVE" = bool_decide (state f = ACTIVE).
Proof. destruct (state f); reflexivity. Qed.

Lemma advance_cons_app (p : File) pre last tail :
  genai.advance (p :: pre ++ last :: tail) = pre ++ last :: tail.
Proof. destruct pre; reflexivity. Qed.

(** One step of a run whose first half is known to return. *)
Ltac mstep :=
  erewrite bind_Return by
    (first [ apply emit_run | apply print_run | apply configure_run
           | eapply get_file_run; eassumption | reflexivity ]).

(** Read the fields of a world through the updates made to it. *)
Ltac unfold_world :=
  cbn [environ GEMINI_API_KEY model_cache next_id fs remote_files
       upload_script chat_script trace
       log set_environ set_api_key set_model_cache set_next_id set_fs
       set_remote_files set_upload_script set_chat_script set_trace] in *.

Lemma world_ext w1 w2 :
  environ w1 = environ w2 -> GEMINI_API_KEY w1 = GEMINI_API_KEY w2 ->
  model_cache w1 = model_cache w2 -> next_id w1 = next_id w2 ->
  fs w1 = fs w2 -> remote_files w1 = remote_files w2 ->
  upload_script w1 = upload_script w2 -> chat_script w1 = chat_script w2 ->
  trace w1 = trace w2 -> w1 = w2.
Proof. destruct w1, w2. cbn. by intros -> -> -> -> -> -> -> -> ->. Qed.

(** Two worlds are equal when their fields are. *)
Ltac world_eq :=
  lazymatch goal with
  | |- (?o, _) = (_, _) => apply (f_equal (pair o))
  | _ => idtac
  end;
  apply world_ext; unfold_world; try reflexivity.

(** ** The poller on one file *)

(** A file whose script is [pre], all PROCESSING, and then [last], in another
    state: the loop goes round once per element of [pre] and ends on [last]. *)
Lemma poll_run pre : forall last tail fuel file_name w,
  remote_files w !! file_name = Some (pre ++ last :: tail) ->
  Forall (fun f => state f = PROCESSING) pre ->
  state last <> PROCESSING ->
  length pre <= fuel ->
  (genai.get_file file_name ≫= while_processing fuel file_name) w =
  (Return last,
   log (EvGetFile file_name :: poll_events file_name (length pre))
     (set_remote_files
        (<[file_name := genai.advance (last :: tail)]> (remote_files w)) w)).
Proof.
  induction pre as [|p pre IH]; intros last tail fuel file_name w Hw Hpre Hlast Hfuel.
  - mstep. destruct fuel; cbn [while_processing];
      rewrite processing_test, bool_decide_eq_false_2 by done; reflexivity.
  - apply Forall_cons in Hpre as [Hp Hpre].
    destruct fuel as [|fuel]; [cbn in Hfuel; lia|].
    rewrite <- app_comm_cons in Hw.
    mstep. cbn [while_processing].
    rewrite processing_test, bool_decide_eq_true_2 by done.
    unfold print_noeol, time.sleep. do 2 mstep.
    rewrite advance_cons_app.
    rewrite (IH last tail); [ | | done | done | cbn in Hfuel; lia].
    + world_eq.
      * by rewrite insert_insert_eq.
      * by rewrite <- !app_assoc.
    + unfold_world. apply lookup_insert_eq.
Qed.

Lemma bind_assoc {A B C} (m : M A) (f : A -> M B) (g : B -> M C) w :
  (m ≫= (fun a => f a ≫= g)) w = ((m ≫= f) ≫= g) w.
Proof. rewrite !bind_run. destruct (m w) as [[a|e|] w1]; reflexivity. Qed.

Lemma poll_file_active pre last tail fuel file_name w :
  remote_files w !! file_name = Some (pre ++ last :: tail) ->
  Forall (fun f => state f = PROCESSING) pre ->
  state last = ACTIVE ->
  length pre <= fuel ->
  poll_file fuel file_name w =
  (Return tt,
   log (EvGetFile file_name :: poll_events file_name (length pre))
     (set_remote_files
        (<[file_name := genai.advance (last :: tail)]> (remote_files w)) w)).
Proof.
  intros Hw Hpre Hlast Hfuel. unfold poll_file.
  rewrite bind_assoc.
  erewrite bind_Return by (eapply poll_run; [eassumption|done|congruence|done]).
  rewrite active_test, bool_decide_eq_true_2 by done. reflexivity.
Qed.

Lemma poll_file_failed pre last tail fuel file_name w :
  remote_files w !! file_name = Some (pre ++ last :: tail) ->
  Forall (fun f => state f = PROCESSING) pre ->
  state last <> PROCESSING ->
  state last <> ACTIVE ->
  length pre <= fuel ->
  poll_file fuel file_name w =
  (Raise (mkException "Exception" ("File " +:+ name last +:+ " failed to process")),
   log (EvGetFile file_name :: poll_events file_name (length pre))
     (set_remote_files
        (<[file_name := genai.advance (last :: tail)]> (remote_files w)) w)).
Proof.
  intros Hw Hpre Hlast Hlast' Hfuel. unfold poll_file.
  rewrite bind_assoc.
  erewrite bind_Return by (eapply poll_run; [eassumption|done|congruence|done]).
  rewrite active_test, bool_decide_eq_false_2 by done. reflexivity.
Qed.

(** What [scripted] says about the snapshots, for a script that ends the
    loop after [k] rounds. *)
Lemma scripted_split w file_name k s :
  scripted w file_name (replicate k PROCESSING ++ [s]) ->
  exists pre last,
    remote_files w !! file_name = Some (pre ++ [last]) /\
    Forall (fun f => state f = PROCESSING) pre /\
    length pre = k /\ state last = s /\ name last = file_name.
Proof.
  intros (snaps & Hw & Hst & Hnames).
  apply fmap_app_inv in Hst as (pre & post & Hpre & Hpost & ->).
  destruct post as [|last [|]]; try discriminate.
  injection Hpost as Hlast. symmetry in Hlast.
  exists pre, last. repeat split; try done.
  - apply Forall_forall. intros f Hf.
    assert (state f ∈ replicate k PROCESSING) as Hin.
    { rewrite Hpre. by apply list_elem_of_fmap_2. }
    by apply elem_of_replicate in Hin as [? _].
  - rewrite <- (length_replicate k PROCESSING), Hpre. by rewrite length_fmap.
  - apply Forall_app in Hnames as [_ Hl]. by inversion Hl.
Qed.

(** Once a file was polled to ACTIVE, every file that was going to become
    ACTIVE still is. *)
Lemma becomes_active_after w fuel file_name last es other :
  state last = ACTIVE -> name last = file_name ->
  becomes_active w fuel other ->
  becomes_active
    (log es (set_remote_files (<[file_name := [last]]> (remote_files w)) w))
    fuel other.
Proof.
  intros Hlast Hname (k & Hk & snaps & Hw & Hst & Hnames).
  destruct (decide (file_name = other)) as [->|Hne].
  - exists 0. split; [lia|]. exists [last]. unfold_world.
    rewrite lookup_insert_eq. cbn. rewrite Hlast. repeat split; try done.
    by apply Forall_singleton.
  - exists k. split; [done|]. exists snaps. unfold_world.
    by rewrite lookup_insert_ne.
Qed.

Lemma for_each_poll_returns names : forall fuel w,
  Forall (becomes_active w fuel) names ->
  exists es remote,
    for_each names (poll_file fuel) w =
    (Return tt, log es (set_remote_files remote w)).
Proof.
  induction names as [|n names IH]; intros fuel w Hall.
  - exists [], (remote_files w). cbn [for_each]. rewrite ret_run.
    world_eq. by rewrite app_nil_r.
  - apply Forall_cons in Hall as [(k & Hk & Hn) Hall].
    apply scripted_split in Hn as (pre & last & Hw & Hpre & Hlen & Hlast & Hname).
    cbn [for_each].
    erewrite bind_Return
      by (eapply poll_file_active; [eassumption|done|done|lia]).
    cbn [genai.advance].
    edestruct (IH fuel) as (es & remote & E).
    { eapply Forall_impl; [exact Hall|]. intros other Ho.
      by apply becomes_active_after. }
    rewrite E. eexists _, remote. world_eq.
    rewrite <- app_assoc. reflexivity.
Qed.

(** The poller returns when every file becomes ACTIVE; it only reads the
    remote files and writes the trace. *)
Lemma wait_for_files_active_returns fuel files w :
  Forall (fun f => becomes_active w fuel (name f)) files ->
  exists es remote,
    wait_for_files_active fuel files w =
    (Return tt, log es (set_remote_files remote w)).
Proof.
  intros Hall. unfold wait_for_files_active. do 2 mstep.
  lazymatch goal with
  | |- exists _ _, _ ?w0 = _ =>
      destruct (for_each_poll_returns (map name files) fuel w0)
        as (es & remote & E)
  end.
  { apply Forall_fmap. eapply Forall_impl; [exact Hall|].
    intros f Hf. exact Hf. }
  erewrite bind_Return by exact E.
  mstep. rewrite print_run.
  eexists (_ :: _ :: es ++ [_; _]), remote. world_eq.
  rewrite <- !app_assoc. reflexivity.
Qed.


(** * The poller *)

(** C10. Given no asset at all, the poller returns normally with no value:
    it configures the client and prints its two messages and the empty line,
    and nothing else happens, so no file state is fetched and no sleep is
    taken, and no error is raised. *)
Theorem wait_for_files_active_nil (fuel : nat) (w : World) :
  wait_for_files_active fuel [] w =
  (Return tt,
   log [EvConfigure (GEMINI_API_KEY w);
        EvPrint ("Waiting for file processing..." +:+ nl);
        EvPrint ("...all files ready" +:+ nl);
        EvPrint nl] w).
Proof.
  unfold wait_for_files_active. cbn [map for_each].
  do 4 mstep. rewrite print_run, !log_log. reflexivity.
Qed.

(** C2. The poller on three assets whose successive states are
    [PROCESSING, PROCESSING, ACTIVE], [ACTIVE] and [PROCESSING, FAILED],
    whatever assets follow them: it polls the assets in order, sleeps 10
    seconds exactly twice for the first, never for the second and once for
    the third, and then raises the exception that names the third asset; no
    later asset is fetched. And when every asset becomes ACTIVE, it returns
    normally with no value. *)
Theorem wait_for_files_active_poller :
  (forall fuel w (f1 f2 f3 : File) (rest : list File),
      2 <= fuel ->
      name f1 <> name f2 -> name f1 <> name f3 -> name f2 <> name f3 ->
      scripted w (name f1) [PROCESSING; PROCESSING; ACTIVE] ->
      scripted w (name f2) [ACTIVE] ->
      scripted w (name f3) [PROCESSING; FAILED] ->
      exists w',
        wait_for_files_active fuel (f1 :: f2 :: f3 :: rest) w =
        (Raise (mkException "Exception"
                  ("File " +:+ name f3 +:+ " failed to process")), w') /\
        trace w' =
        trace w ++
        [EvConfigure (GEMINI_API_KEY w);
         EvPrint ("Waiting for file processing..." +:+ nl);
         EvGetFile (name f1);
         EvPrint "."; EvSleep 10; EvGetFile (name f1);
         EvPrint "."; EvSleep 10; EvGetFile (name f1);
         EvGetFile (name f2);
         EvGetFile (name f3);
         EvPrint "."; EvSleep 10; EvGetFile (name f3)]) /\
  (forall fuel w (files : list File),
      Forall (fun f => becomes_active w fuel (name f)) files ->
      exists w', wait_for_files_active fuel files w = (Return tt, w')).
Proof.
  split.
  - intros fuel w f1 f2 f3 rest Hfuel H12 H13 H23 S1 S2 S3.
    apply (scripted_split w _ 2) in S1 as (pre1 & l1 & E1 & P1 & L1 & A1 & _).
    apply (scripted_split w _ 0) in S2 as (pre2 & l2 & E2 & P2 & L2 & A2 & _).
    apply (scripted_split w _ 1) in S3 as (pre3 & l3 & E3 & P3 & L3 & A3 & N3).
    unfold wait_for_files_active. do 2 mstep. cbn [map for_each].
    eexists. split.
    + eapply bind_Raise.
      erewrite bind_Return
        by (eapply poll_file_active; [exact E1|done|done|lia]).
      erewrite bind_Return;
        [|eapply poll_file_active;
          [unfold_world; rewrite lookup_insert_ne by done; exact E2
          |done|done|lia]].
      eapply bind_Raise.
      rewrite <- N3 at 2.
      eapply poll_file_failed;
        [unfold_world; rewrite !lookup_insert_ne by done; exact E3
        |done|congruence|congruence|lia].
    + rewrite L1, L2, L3. unfold_world. cbn [poll_events].
      rewrite <- !app_assoc. reflexivity.
  - intros fuel w files Hall.
    destruct (wait_for_files_active_returns fuel files w Hall)
      as (es & remote & E).
    eauto.
Qed.

(** * The model cache *)

Lemma load_cached model_name cfg instr m w :
  model_cache w !! (model_name, cfg, instr) = Some m ->
  load_gemini_model model_name cfg instr w = (Return m, w).
Proof. intros E. unfold load_gemini_model, st.cache_resource. by rewrite E. Qed.

Lemma nonempty_test (s : string) :
  s <> EmptyString -> String.eqb s EmptyString = false.
Proof. intros H. by apply String.eqb_neq. Qed.

Lemma load_fresh model_name cfg instr w :
  instr <> EmptyString ->
  model_cache w !! (model_name, cfg, instr) = None ->
  let m := mkModel (next_id w) (genai.qualified model_name) cfg instr in
  load_gemini_model model_name cfg instr w =
  (Return m,
   set_model_cache (<[(model_name, cfg, instr) := m]> (model_cache w))
     (log [EvConfigure (GEMINI_API_KEY w); EvNewModel m]
        (set_next_id (S (next_id w)) w))).
Proof.
  intros Hinstr E m. unfold load_gemini_model, st.cache_resource. rewrite E.
  mstep. unfold genai.GenerativeModel. rewrite (nonempty_test _ Hinstr).
  cbn [next_id log set_trace].
  fold m. world_eq. by rewrite <- app_assoc.
Qed.

(** With an empty system instruction and no handle cached, the client is
    configured and the constructor raises: nothing is allocated or cached. *)
Lemma load_refused model_name cfg w :
  model_cache w !! (model_name, cfg, EmptyString) = None ->
  load_gemini_model model_name cfg EmptyString w =
  (Raise genai.empty_content, log [EvConfigure (GEMINI_API_KEY w)] w).
Proof.
  intros E. unfold load_gemini_model, st.cache_resource. rewrite E.
  mstep. reflexivity.
Qed.

Lemma cache_wf_load model_name cfg instr w :
  cache_wf w -> cache_wf (load_gemini_model model_name cfg instr w).2.
Proof.
  intros [Hlt Hinj].
  destruct (model_cache w !! (model_name, cfg, instr)) as [m|] eqn:E.
  - by rewrite (load_cached _ _ _ m).
  - destruct (String.eqb_spec instr EmptyString) as [->|Hinstr].
    { rewrite load_refused by done. split; [exact Hlt|exact Hinj]. }
    rewrite load_fresh by done. cbn [snd]. split; unfold_world.
    + intros key m. rewrite lookup_insert. case_decide.
      * intros [= <-]. cbn. lia.
      * intros Hm. apply Hlt in Hm. lia.
    + intros key1 key2 m1 m2. rewrite !lookup_insert.
      repeat case_decide; try congruence.
      * intros [= <-] Hm. apply Hlt in Hm. cbn. lia.
      * intros Hm [= <-]. apply Hlt in Hm. cbn. lia.
      * apply Hinj.
Qed.

(** However [load_gemini_model] ends, it ends: it returns a handle, and the
    only traces it can then leave are none, on a hit, and the configure call
    and the construction, on a miss; or the system instruction is empty and
    the constructor raised after the configure call. *)
Lemma load_ends model_name cfg instr w :
  (exists model setup cache nid,
      load_gemini_model model_name cfg instr w =
      (Return model, set_model_cache cache (log setup (set_next_id nid w))) /\
      (setup = [] \/ setup = [EvConfigure (GEMINI_API_KEY w); EvNewModel model])) \/
  (instr = EmptyString /\
   load_gemini_model model_name cfg instr w =
   (Raise genai.empty_content, log [EvConfigure (GEMINI_API_KEY w)] w)).
Proof.
  destruct (model_cache w !! (model_name, cfg, instr)) as [m|] eqn:E.
  - left. exists m, [], (model_cache w), (next_id w). split; [|by left].
    rewrite (load_cached _ _ _ m) by done. world_eq. by rewrite app_nil_r.
  - destruct (String.eqb_spec instr EmptyString) as [->|Hinstr].
    + right. split; [done|]. by apply load_refused.
    + left. eexists _, _, _, _. split; [by apply load_fresh|by right].
Qed.

(** With a system instruction that is not empty, [load_gemini_model]
    returns. *)
Lemma load_run model_name cfg instr w :
  instr <> EmptyString ->
  exists model setup cache nid,
    load_gemini_model model_name cfg instr w =
    (Return model, set_model_cache cache (log setup (set_next_id nid w))) /\
    (setup = [] \/ setup = [EvConfigure (GEMINI_API_KEY w); EvNewModel model]).
Proof.
  intros Hinstr.
  destruct (load_ends model_name cfg instr w) as [H|[Hempty _]]; [exact H|done].
Qed.

(** * Fuel is only a bound *)

Lemma extends_refl {A} (m : M A) : extends m m.
Proof. by intros w _. Qed.

Lemma extends_bind {A B} (m1 m2 : M A) (f1 f2 : A -> M B) :
  extends m1 m2 -> (forall a, extends (f1 a) (f2 a)) ->
  extends (m1 ≫= f1) (m2 ≫= f2).
Proof.
  intros Hm Hf w. rewrite !bind_run. unfold settled.
  specialize (Hm w). destruct (m1 w) as [[a|e|] w1] eqn:E1.
  - rewrite Hm by done. apply Hf.
  - by rewrite Hm.
  - done.
Qed.

Lemma extends_for_each {A} (xs : list A) (body1 body2 : A -> M unit) :
  (forall x, extends (body1 x) (body2 x)) ->
  extends (for_each xs body1) (for_each xs body2).
Proof.
  intros Hbody. induction xs as [|x xs IH]; cbn [for_each].
  - apply extends_refl.
  - apply extends_bind; [apply Hbody|intros _; exact IH].
Qed.

(** A loop that ended within [fuel] rounds does the same with more. *)
Lemma while_processing_more_fuel fuel : forall fuel' file_name file,
  fuel <= fuel' ->
  extends (while_processing fuel file_name file)
          (while_processing fuel' file_name file).
Proof.
  induction fuel as [|fuel IH]; intros fuel' file_name file Hle.
  - intros w. destruct fuel'; cbn [while_processing];
      destruct (String.eqb _ _); try done; by intros [].
  - destruct fuel' as [|fuel']; [lia|]. cbn [while_processing].
    destruct (String.eqb _ _); [|apply extends_refl].
    repeat (apply extends_bind; [apply extends_refl|intros ?]).
    apply IH. lia.
Qed.

Lemma wait_for_files_active_more_fuel fuel fuel' files :
  fuel <= fuel' ->
  extends (wait_for_files_active fuel files) (wait_for_files_active fuel' files).
Proof.
  intros Hle. unfold wait_for_files_active.
  do 2 (apply extends_bind; [apply extends_refl|intros _]).
  apply extends_bind; [|intros _; apply extends_refl].
  apply extends_for_each. intros file_name. unfold poll_file.
  apply extends_bind; [apply extends_refl|intros file].
  apply extends_bind; [|intros ?; apply extends_refl].
  by apply while_processing_more_fuel.
Qed.

(** The result of an analysis that ended does not depend on the fuel. *)
Lemma analyze_video_from_files_more_fuel
    fuel fuel' files model_name cfg instr prompt :
  fuel <= fuel' ->
  extends (analyze_video_from_files fuel files model_name cfg instr prompt)
          (analyze_video_from_files fuel' files model_name cfg instr prompt).
Proof.
  intros Hle. unfold analyze_video_from_files.
  apply extends_bind; [apply extends_refl|intros [ups paths]].
  apply extends_bind; [|intros _; apply extends_refl].
  by apply wait_for_files_active_more_fuel.
Qed.

(** * The cache over the life of the process *)

Lemma cache_step_refl w : cache_step w w.
Proof. by split. Qed.

Lemma cache_step_trans w1 w2 w3 :
  cache_step w1 w2 -> cache_step w2 w3 -> cache_step w1 w3.
Proof. intros [? ?] [? ?]. split; eauto. Qed.

(** A computation that touches neither the cache nor the allocator. *)
Lemma keeps_cache_frame {A} (m : M A) :
  (forall w, model_cache (m w).2 = model_cache w /\ next_id (m w).2 = next_id w) ->
  keeps_cache m.
Proof.
  intros H w. destruct (H w) as [Hc Hn]. unfold cache_step, cache_wf.
  rewrite Hc, Hn. by split.
Qed.

Lemma keeps_cache_ret {A} (a : A) : keeps_cache (mret a : M A).
Proof. intros w. apply cache_step_refl. Qed.

Lemma keeps_cache_bind {A B} (m : M A) (f : A -> M B) :
  keeps_cache m -> (forall a, keeps_cache (f a)) -> keeps_cache (m ≫= f).
Proof.
  intros Hm Hf w. rewrite bind_run. specialize (Hm w).
  destruct (m w) as [[a|e|] w1]; [|done|done].
  eapply cache_step_trans; [exact Hm|apply Hf].
Qed.

Lemma keeps_cache_for_each {A} (xs : list A) (body : A -> M unit) :
  (forall x, keeps_cache (body x)) -> keeps_cache (for_each xs body).
Proof.
  intros Hbody. induction xs as [|x xs IH]; cbn [for_each].
  - apply keeps_cache_ret.
  - apply keeps_cache_bind; [apply Hbody|intros _; exact IH].
Qed.

Create HintDb keeps.

(** The calls that leave the cache and the allocator alone. *)
Ltac solve_frame :=
  apply keeps_cache_frame; intros w;
  repeat match goal with
         | |- context [match ?x with _ => _ end] => destruct x
         end;
  by split.

Lemma keeps_cache_emit e : keeps_cache (emit e).
Proof. solve_frame. Qed.

Lemma keeps_cache_raise {A} e : keeps_cache (raise e : M A).
Proof. solve_frame. Qed.

Lemma keeps_cache_diverge {A} : keeps_cache (diverge : M A).
Proof. solve_frame. Qed.

Lemma keeps_cache_configure : keeps_cache configure_with_global.
Proof. solve_frame. Qed.

Lemma keeps_cache_get_file file_name : keeps_cache (genai.get_file file_name).
Proof. unfold genai.get_file. solve_frame. Qed.

Lemma keeps_cache_upload_file path mime : keeps_cache (genai.upload_file path mime).
Proof. unfold genai.upload_file. solve_frame. Qed.

Lemma keeps_cache_send_message s message : keeps_cache (genai.send_message s message).
Proof. unfold genai.send_message. solve_frame. Qed.

Lemma keeps_cache_start_chat model history : keeps_cache (genai.start_chat model history).
Proof. solve_frame. Qed.

Lemma keeps_cache_write_file path data : keeps_cache (os.write_file path data).
Proof. solve_frame. Qed.

Lemma keeps_cache_path_exists path : keeps_cache (os.path_exists path).
Proof. solve_frame. Qed.

Lemma keeps_cache_remove path : keeps_cache (os.remove path).
Proof. unfold os.remove. solve_frame. Qed.

#[global] Hint Resolve keeps_cache_ret keeps_cache_bind keeps_cache_for_each
  keeps_cache_emit keeps_cache_raise keeps_cache_diverge keeps_cache_configure
  keeps_cache_get_file keeps_cache_upload_file keeps_cache_send_message
  keeps_cache_start_chat keeps_cache_write_file keeps_cache_path_exists
  keeps_cache_remove : keeps.

Lemma keeps_cache_load model_name cfg instr :
  keeps_cache (load_gemini_model model_name cfg instr).
Proof.
  intros w. split; [apply cache_wf_load|].
  intros key m Hkey.
  destruct (model_cache w !! (model_name, cfg, instr)) as [m0|] eqn:E.
  - by rewrite (load_cached _ _ _ m0).
  - destruct (String.eqb_spec instr EmptyString) as [->|Hinstr].
    { by rewrite load_refused. }
    rewrite load_fresh by done. cbn [snd]. unfold_world.
    rewrite lookup_insert_ne; [done|]. intros <-. congruence.
Qed.

Lemma keeps_cache_while_processing fuel : forall file_name file,
  keeps_cache (while_processing fuel file_name file).
Proof.
  induction fuel as [|fuel IH]; intros file_name file; cbn [while_processing];
    destruct (String.eqb _ _); unfold print_noeol, time.sleep; eauto 10 with keeps.
Qed.

Lemma keeps_cache_poll_file fuel file_name : keeps_cache (poll_file fuel file_name).
Proof.
  unfold poll_file. apply keeps_cache_bind; [auto with keeps|intros f].
  apply keeps_cache_bind; [apply keeps_cache_while_processing|intros f'].
  destruct (negb _); auto with keeps.
Qed.

Lemma keeps_cache_wait fuel files : keeps_cache (wait_for_files_active fuel files).
Proof.
  unfold wait_for_files_active, print.
  pose proof (keeps_cache_poll_file fuel). eauto 10 with keeps.
Qed.

Lemma keeps_cache_save_and_upload files : forall ups paths,
  keeps_cache (save_and_upload files ups paths).
Proof.
  induction files as [|vf files IH]; intros ups paths; cbn [save_and_upload].
  - apply keeps_cache_ret.
  - unfold upload_to_gemini, print. eauto 12 with keeps.
Qed.

Lemma keeps_cache_remove_temp_videos paths : keeps_cache (remove_temp_videos paths).
Proof.
  unfold remove_temp_videos. apply keeps_cache_for_each. intros path.
  apply keeps_cache_bind; [auto with keeps|]. intros []; auto with keeps.
Qed.

Lemma keeps_cache_analyze_video_from_url url model_name cfg instr prompt :
  keeps_cache (analyze_video_from_url url model_name cfg instr prompt).
Proof.
  unfold analyze_video_from_url.
  pose proof (keeps_cache_load model_name cfg instr). eauto 10 with keeps.
Qed.

Lemma keeps_cache_analyze_video_from_files fuel files model_name cfg instr prompt :
  keeps_cache (analyze_video_from_files fuel files model_name cfg instr prompt).
Proof.
  unfold analyze_video_from_files.
  apply keeps_cache_bind; [apply keeps_cache_save_and_upload|intros [ups paths]].
  apply keeps_cache_bind; [apply keeps_cache_wait|intros _].
  apply keeps_cache_bind; [apply keeps_cache_load|intros model].
  pose proof (keeps_cache_remove_temp_videos paths). eauto 10 with keeps.
Qed.

(** Whatever the page calls, and however the calls end, the cache stays
    well formed and keeps every handle it holds. *)
Lemma cache_step_after_calls cs : forall w, cache_step w (after_calls cs w).
Proof.
  induction cs as [|c cs IH]; intros w; cbn [after_calls fold_left].
  - apply cache_step_refl.
  - eapply cache_step_trans; [|apply IH].
    destruct c; cbn [after_call].
    + apply keeps_cache_load.
    + apply keeps_cache_analyze_video_from_url.
    + apply keeps_cache_analyze_video_from_files.
Qed.

(** C4. Within one process, a call of [load_gemini_model] with a system
    instruction the client accepts, one that is not empty, returns a handle,
    and a call that repeats its three arguments returns the handle of that
    call, the same object, whatever the page called in between, and changes
    nothing: no configure call, no construction. A call that differs from
    an earlier one in the model name, the configuration or the system
    instruction returns another object. *)
Theorem load_gemini_model_cached :
  (forall model_name cfg instr w between,
      instr <> EmptyString ->
      exists m w1,
        load_gemini_model model_name cfg instr w = (Return m, w1) /\
        load_gemini_model model_name cfg instr (after_calls between w1) =
        (Return m, after_calls between w1)) /\
  (forall model_name cfg instr model_name' cfg' instr' w between,
      cache_wf w ->
      instr <> EmptyString -> instr' <> EmptyString ->
      (model_name, cfg, instr) <> (model_name', cfg', instr') ->
      exists m w1 m' w2,
        load_gemini_model model_name cfg instr w = (Return m, w1) /\
        load_gemini_model model_name' cfg' instr' (after_calls between w1) =
        (Return m', w2) /\
        model_id m <> model_id m').
Proof.
  assert (forall model_name cfg instr w,
      instr <> EmptyString ->
      exists m w1,
        load_gemini_model model_name cfg instr w = (Return m, w1) /\
        model_cache w1 !! (model_name, cfg, instr) = Some m) as Hfirst.
  { intros model_name cfg instr w Hinstr.
    destruct (model_cache w !! (model_name, cfg, instr)) as [m|] eqn:E.
    - exists m, w. by rewrite (load_cached _ _ _ m).
    - eexists _, _. split; [by apply load_fresh|].
      unfold_world. apply lookup_insert_eq. }
  split.
  - intros model_name cfg instr w between Hinstr.
    destruct (Hfirst model_name cfg instr w Hinstr) as (m & w1 & E1 & C1).
    exists m, w1. split; [done|]. apply load_cached.
    by apply (cache_step_after_calls between w1).
  - intros model_name cfg instr model_name' cfg' instr' w between Hwf
      Hinstr Hinstr' Hne.
    destruct (Hfirst model_name cfg instr w Hinstr) as (m & w1 & E1 & C1).
    destruct (Hfirst model_name' cfg' instr' (after_calls between w1) Hinstr')
      as (m' & w2 & E2 & C2).
    exists m, w1, m', w2. split; [done|]. split; [done|].
    (* the cache is well formed, and still holds the first handle, at the end *)
    assert (cache_step w w2) as [Hwf2 Hkeep].
    { eapply cache_step_trans; [|eapply cache_step_trans].
      - pose proof (keeps_cache_load model_name cfg instr w) as H.
        rewrite E1 in H. exact H.
      - apply (cache_step_after_calls between).
      - pose proof (keeps_cache_load model_name' cfg' instr'
                      (after_calls between w1)) as H.
        rewrite E2 in H. exact H. }
    destruct (Hwf2 Hwf) as [_ Hinj].
    intros Hid. apply Hne. apply (Hinj _ _ m m'); [|done|done].
    pose proof (keeps_cache_load model_name' cfg' instr'
                  (after_calls between w1)) as [_ H].
    rewrite E2 in H. apply H.
    by apply (cache_step_after_calls between w1).
Qed.

(** * Analysis from a URL *)

Lemma send_message_reply s message reply rest w :
  message <> EmptyString ->
  chat_script w = inr reply :: rest ->
  genai.send_message s message w =
  (Return (mkResponse reply),
   set_chat_script rest (log [EvSendMessage s message] w)).
Proof.
  intros Hm E. unfold genai.send_message. rewrite (nonempty_test _ Hm).
  unfold_world. by rewrite E.
Qed.

Lemma send_message_error s message e rest w :
  message <> EmptyString ->
  chat_script w = inl e :: rest ->
  genai.send_message s message w =
  (Raise e, set_chat_script rest (log [EvSendMessage s message] w)).
Proof.
  intros Hm E. unfold genai.send_message. rewrite (nonempty_test _ Hm).
  unfold_world. by rewrite E.
Qed.


Lemma start_chat_run model history w :
  genai.start_chat model history w =
  (Return (mkChat model history), log [EvStartChat (mkChat model history)] w).
Proof. reflexivity. Qed.

(** C3. For every URL, with a system instruction and a prompt the client
    accepts, that is, neither of them empty, [analyze_video_from_url] opens
    one session whose history is the single user turn with the URL string
    as its only part, sends the prompt to that session, and returns the
    text of the reply as it came. Before that it may configure the client
    and construct the model, when the model is not cached yet. *)
Theorem analyze_video_from_url_roundtrip
    (url model_name : string) (cfg : GenerationConfig) (instr prompt : string)
    (w : World) (reply : string) (rest : list (Exception + string)) :
  instr <> EmptyString -> prompt <> EmptyString ->
  chat_script w = inr reply :: rest ->
  exists model setup w',
    analyze_video_from_url url model_name cfg instr prompt w = (Return reply, w') /\
    (setup = [] \/ setup = [EvConfigure (GEMINI_API_KEY w); EvNewModel model]) /\
    let s := mkChat model [mkContent "user" [PartText url]] in
    trace w' = trace w ++ setup ++ [EvStartChat s; EvSendMessage s prompt].
Proof.
  intros Hinstr Hprompt Hchat.
  (* the handle: cached, or configured and constructed now *)
  destruct (load_run model_name cfg instr w Hinstr)
    as (model & setup & cache & nid & Eload & Hsetup).
  exists model, setup. eexists.
  split; [|split; [exact Hsetup|]].
  - unfold analyze_video_from_url.
    erewrite bind_Return by exact Eload.
    (* the session on the URL, then the prompt; neither touches the script *)
    erewrite bind_Return by apply start_chat_run.
    erewrite bind_Return by (apply send_message_reply; [exact Hprompt|exact Hchat]).
    apply ret_run.
  - unfold_world. by rewrite <- ?app_assoc.
Qed.

(** * Start-up *)

Lemma module_start_run dotenv w :
  module_start dotenv w =
  (Return tt,
   set_api_key ((environ w ∪ dotenv) !! "GEMINI_API_KEY")
     (set_environ (environ w ∪ dotenv) w)).
Proof. reflexivity. Qed.

(** C5, as the code has it. When the key is neither in the environment nor
    in the [.env] file, start-up raises nothing: it completes with
    [GEMINI_API_KEY] set to [None] and without any call to the service.
    The pipeline then runs with the missing key: every later
    [genai.configure] is handed [None] and returns, so a failure can only
    come from the service calls inside the pipeline. *)
Theorem module_start_missing_key (dotenv : gmap string string) (w : World) :
  (environ w ∪ dotenv) !! "GEMINI_API_KEY" = None ->
  exists w',
    module_start dotenv w = (Return tt, w') /\
    GEMINI_API_KEY w' = None /\
    trace w' = trace w /\
    configure_with_global w' = (Return tt, log [EvConfigure None] w').
Proof.
  intros Habsent. eexists. split; [apply module_start_run|].
  split; [exact Habsent|]. split; [reflexivity|].
  rewrite configure_run. unfold_world. by rewrite Habsent.
Qed.

(** * Temporary paths and MIME types *)

Lemma append_inj_l (p s1 s2 : string) : p +:+ s1 = p +:+ s2 -> s1 = s2.
Proof. induction p as [|c p IH]; cbn; [done|]. intros [= E]. by apply IH. Qed.

Lemma prefix_append (p s : string) : String.prefix p (p +:+ s) = true.
Proof.
  induction p as [|c p IH]; [by destruct s|].
  change (String c p +:+ s) with (String c (p +:+ s)). cbn.
  by destruct (ascii_dec c c).
Qed.

(** The paths the first loop hands back are the temporary paths of the
    input files, in order, after the ones it was given. *)
Lemma save_and_upload_paths files : forall ups paths w ups' paths' w',
  save_and_upload files ups paths w = (Return (ups', paths'), w') ->
  paths' = paths ++ map temp_video_path files.
Proof.
  induction files as [|vf files IH]; intros ups paths w ups' paths' w' E.
  - cbn in E. injection E as _ <- _. by rewrite app_nil_r.
  - cbn [save_and_upload] in E.
    apply bind_Return_inv in E as (_ & w1 & _ & E).
    apply bind_Return_inv in E as (file & w2 & _ & E).
    apply IH in E. rewrite E, <- app_assoc. reflexivity.
Qed.

(** C6, as the code has it. The temporary path is the file name behind the
    fixed prefix [temp_video_]: two input files get the same path exactly
    when they have the same name; a path that does not start with the prefix
    is never a temporary path; and the paths the first loop records are
    these, one per input file, in input order. *)
Theorem temp_video_path_by_name :
  (forall f1 f2 : UploadedFile,
      temp_video_path f1 = temp_video_path f2 <-> upload_name f1 = upload_name f2) /\
  (forall (f : UploadedFile) (p : string),
      String.prefix "temp_video_" p = false -> temp_video_path f <> p) /\
  (forall files w ups paths w',
      save_and_upload files [] [] w = (Return (ups, paths), w') ->
      paths = map temp_video_path files).
Proof.
  split; [|split].
  - intros f1 f2. unfold temp_video_path. split.
    + apply append_inj_l.
    + by intros ->.
  - intros f p Hp <-. unfold temp_video_path in Hp.
    by rewrite prefix_append in Hp.
  - intros files w ups paths w' E. by apply save_and_upload_paths in E.
Qed.

(** C6 as stated fails: two different uploads that carry the same file name
    are given the same temporary path. *)
Lemma temp_video_path_collision :
  ~ (forall f1 f2 : UploadedFile, f1 <> f2 -> temp_video_path f1 <> temp_video_path f2).
Proof.
  intros H.
  apply (H (mkUpload "clip.mp4" [x01%byte]) (mkUpload "clip.mp4" [x02%byte])).
  - discriminate.
  - reflexivity.
Qed.

(** C5 as stated fails: with no key anywhere, start-up raises nothing. *)
Lemma module_start_no_error :
  ~ (forall (dotenv : gmap string string) (w : World),
        (environ w ∪ dotenv) !! "GEMINI_API_KEY" = None ->
        exists e w', module_start dotenv w = (Raise e, w')).
Proof.
  intros H.
  destruct (H ∅ (mkWorld ∅ None ∅ 0 ∅ ∅ [] [] [])) as (e & w' & E).
  - reflexivity.
  - rewrite module_start_run in E. discriminate.
Qed.

(** ** [split] *)

Lemma split_nonempty sep s : split sep s <> [].
Proof.
  destruct s as [|c s]; cbn [split]; [done|].
  destruct (Ascii.eqb c sep); [done|]. by destruct (split sep s).
Qed.

Lemma split_app sep a b :
  split sep (a +:+ String sep b) = split sep a ++ split sep b.
Proof.
  induction a as [|c a IH].
  - change (EmptyString +:+ String sep b) with (String sep b). cbn [split].
    by rewrite Ascii.eqb_refl.
  - change (String c a +:+ String sep b) with (String c (a +:+ String sep b)).
    cbn [split]. destruct (Ascii.eqb c sep); rewrite IH; [done|].
    pose proof (split_nonempty sep a). by destruct (split sep a).
Qed.

Lemma split_dotless s : dotless s -> split "." s = [s].
Proof.
  unfold dotless. induction s as [|c s IH]; cbn [split has_dot]; [done|].
  intros [Hc Hs]%orb_false_elim. rewrite Hc, IH; done.
Qed.

Lemma last_item_app xs ys : ys <> [] -> last_item (xs ++ ys) = last_item ys.
Proof.
  unfold last_item. intros Hys. induction xs as [|x xs IH]; [done|].
  cbn [app List.last]. rewrite IH.
  destruct (xs ++ ys) eqn:E; [|done].
  apply app_eq_nil in E as [_ ->]. done.
Qed.



(** * The first loop: save and upload *)


Lemma upload_to_gemini_run path mime data w :
  fs w !! path = Some data ->
  upload_to_gemini path mime w =
  let es := [EvConfigure (GEMINI_API_KEY w); EvUploadFile path mime data] in
  match upload_script w with
  | inr f :: rest =>
      (Return f,
       log (es ++ [EvPrint (("Uploaded file '" +:+ display_name f +:+ "' as: "
                              +:+ uri f) +:+ nl)])
         (set_upload_script rest w))
  | inl e :: rest => (Raise e, log es (set_upload_script rest w))
  | [] => (Raise (mkException "ConnectionError" path), log es w)
  end.
Proof.
  intros Hfs. unfold upload_to_gemini. mstep.
  rewrite bind_run. unfold genai.upload_file. unfold_world. rewrite Hfs.
  destruct (upload_script w) as [|[e|f] rest]; cbn;
    try (mstep; rewrite ret_run); world_eq; by rewrite <- ?app_assoc.
Qed.

(** One round of the first loop, up to the upload. *)
Lemma save_and_upload_cons vf files ups paths w :
  save_and_upload (vf :: files) ups paths w =
  let w1 := set_fs (<[temp_video_path vf := upload_bytes vf]> (fs w)) w in
  let es := [EvConfigure (GEMINI_API_KEY w); upload_event vf] in
  match upload_script w with
  | inr f :: rest =>
      save_and_upload files (ups ++ [f]) (paths ++ [temp_video_path vf])
        (log (es ++ [EvPrint (("Uploaded file '" +:+ display_name f +:+ "' as: "
                                +:+ uri f) +:+ nl)])
           (set_upload_script rest w1))
  | inl e :: rest => (Raise e, log es (set_upload_script rest w1))
  | [] => (Raise (mkException "ConnectionError" (temp_video_path vf)), log es w1)
  end.
Proof.
  cbn [save_and_upload]. erewrite bind_Return by reflexivity.
  rewrite bind_run.
  rewrite (upload_to_gemini_run _ _ (upload_bytes vf))
    by (unfold_world; apply lookup_insert_eq).
  cbn zeta. unfold_world.
  destruct (upload_script w) as [|[e|f] rest]; try reflexivity; by world_eq.
Qed.


(** When the first loop returns, it hands back one asset per input file:
    the answers of the service to the uploads, in input order. The trace
    pairs them off: each input file's upload, then the line printed for the
    asset it was answered with. *)
Lemma save_and_upload_inv files : forall ups paths w ups' paths' w',
  save_and_upload files ups paths w = (Return (ups', paths'), w') ->
  exists assets,
    ups' = ups ++ assets /\
    length assets = length files /\
    upload_script w = (inr <$> assets) ++ upload_script w' /\
    trace w' =
    trace w ++ concat (zip_with (upload_round (GEMINI_API_KEY w)) files assets).
Proof.
  induction files as [|vf files IH]; intros ups paths w ups' paths' w' E.
  - cbn in E. injection E as <- _ <-. exists []. by rewrite !app_nil_r.
  - rewrite save_and_upload_cons in E. cbn zeta in E.
    destruct (upload_script w) as [|[e|f] rest] eqn:Hscript; try discriminate.
    apply IH in E as (assets & -> & Hlen & Hrest & Htrace).
    exists (f :: assets). rewrite <- app_assoc. split; [done|].
    split; [cbn; by rewrite Hlen|].
    unfold_world. split; [by rewrite Hrest|].
    rewrite Htrace. cbn [zip_with concat]. unfold upload_round at 2.
    rewrite <- !app_assoc. reflexivity.
Qed.


(** * The last loop: removing the temporary files *)

Lemma remove_temp_videos_run paths : forall w,
  exists disk,
    remove_temp_videos paths w = (Return tt, set_fs disk w) /\
    (forall p, p ∈ paths -> disk !! p = None) /\
    (forall p, fs w !! p = None -> disk !! p = None).
Proof.
  unfold remove_temp_videos.
  induction paths as [|path paths IH]; intros w.
  - exists (fs w). cbn [for_each]. rewrite ret_run. split; [by world_eq|].
    split; [|done]. intros p Hp. by apply elem_of_nil in Hp.
  - cbn [for_each]. rewrite <- bind_assoc.
    erewrite bind_Return by reflexivity.
    destruct (fs w !! path) as [data|] eqn:Hpath.
    + rewrite bool_decide_eq_true_2 by eauto.
      erewrite bind_Return
        by (unfold os.remove; rewrite Hpath; reflexivity).
      destruct (IH (set_fs (delete path (fs w)) w)) as (disk & E & Hgone & Hkeep).
      exists disk. rewrite E. split; [by world_eq|]. split.
      * intros p [->|Hin]%elem_of_cons; [|by apply Hgone].
        apply Hkeep. unfold_world. apply lookup_delete_eq.
      * intros p Hp. apply Hkeep. unfold_world.
        rewrite lookup_delete. by case_decide.
    + rewrite bool_decide_eq_false_2 by (intros [? ?]; discriminate).
      erewrite bind_Return by reflexivity.
      destruct (IH w) as (disk & E & Hgone & Hkeep).
      exists disk. rewrite E. split; [done|]. split.
      * intros p [->|Hin]%elem_of_cons; [by apply Hkeep|by apply Hgone].
      * done.
Qed.

(** * Analysis from files *)






(** * The claims about the analysis from files *)

Lemma send_message_trace s message resp w w' :
  genai.send_message s message w = (Return resp, w') ->
  trace w' = trace w ++ [EvSendMessage s message].
Proof.
  unfold genai.send_message. unfold_world.
  destruct (String.eqb message EmptyString); [discriminate|].
  destruct (chat_script w) as [|[e|reply] rest]; intros [= _ <-]. reflexivity.
Qed.

(** C8. When [analyze_video_from_files] returns, its first loop handed back
    one asset per input file, in input order: the successive answers of the
    service to the uploads, and the loop's trace is, file by file, the
    upload of that input file followed by the line printed for its asset.
    The session that was opened, and that the prompt was sent to, has one
    user turn whose parts are those assets in that order. *)
Theorem analyze_video_from_files_assets
    (fuel : nat) (files : list UploadedFile) (model_name : string)
    (cfg : GenerationConfig) (instr prompt : string)
    (w : World) (r : string) (w' : World) :
  analyze_video_from_files fuel files model_name cfg instr prompt w =
  (Return r, w') ->
  exists assets model front w1,
    save_and_upload files [] [] w =
    (Return (assets, map temp_video_path files), w1) /\
    length assets = length files /\
    upload_script w = (inr <$> assets) ++ upload_script w1 /\
    trace w1 =
    trace w ++ concat (zip_with (upload_round (GEMINI_API_KEY w)) files assets) /\
    let s := mkChat model [mkContent "user" (map PartFile assets)] in
    trace w' = front ++ [EvStartChat s; EvSendMessage s prompt].
Proof.
  intros E. unfold analyze_video_from_files in E.
  apply bind_Return_inv in E as ([ups paths] & w1 & E1 & E). cbn beta iota in E.
  pose proof (save_and_upload_paths _ _ _ _ _ _ _ E1) as Hpaths.
  cbn [app] in Hpaths. subst paths.
  apply bind_Return_inv in E as (_ & w2 & _ & E).
  apply bind_Return_inv in E as (model & w3 & _ & E).
  apply bind_Return_inv in E as (chat & w4 & E4 & E).
  apply bind_Return_inv in E as (resp & w5 & E5 & E).
  apply bind_Return_inv in E as ([] & w6 & E6 & E).
  rewrite start_chat_run in E4. injection E4 as <- <-.
  apply send_message_trace in E5.
  destruct (remove_temp_videos_run (map temp_video_path files) w5)
    as (disk & E6' & _).
  rewrite E6' in E6. injection E6 as <-.
  rewrite ret_run in E. injection E as _ <-.
  destruct (save_and_upload_inv _ _ _ _ _ _ _ E1) as (assets & -> & Hlen & Hscript & Hup).
  exists assets, model, (trace w3), w1. cbn [app] in *.
  repeat (split; [done|]).
  cbn zeta. unfold_world. rewrite E5. unfold_world.
  by rewrite <- app_assoc.
Qed.


(** C1, on the code. Two videos are uploaded and become ACTIVE, and the
    service then answers the message with an error: the error propagates
    and both temporary files are still on disk when the call ends. On the
    same input with a text reply, the call returns and both are gone. *)
Theorem analyze_video_from_files_error_keeps_temp_files :
  let failed :=
    analyze_video_from_files 1 two_videos "gemini-1.5-flash"
      script_generation_config "Analyze the videos." "Summarize."
      (upload_world [inl (mkException "AnalysisError" "no reply")]) in
  let answered :=
    analyze_video_from_files 1 two_videos "gemini-1.5-flash"
      script_generation_config "Analyze the videos." "Summarize."
      (upload_world [inr "A summary."]) in
  (failed.1 = Raise (mkException "AnalysisError" "no reply") /\
   fs failed.2 !! "temp_video_a.mp4" = Some [x01%byte; x02%byte] /\
   fs failed.2 !! "temp_video_b.mov" = Some [x03%byte]) /\
  (answered.1 = Return "A summary." /\
   fs answered.2 !! "temp_video_a.mp4" = None /\
   fs answered.2 !! "temp_video_b.mov" = None).
Proof.
  split.
  - (* the run stops at [send_message]; the removal loop is never reached *)
    vm_compute. done.
  - vm_compute. done.
Qed.


(** * The theorems at concrete inputs *)

(** A concrete script is what [scripted] asks for. *)
Ltac solve_scripted :=
  eexists; split; [vm_compute; reflexivity|];
  split; [reflexivity|repeat constructor].

Lemma wait_for_files_active_poller_witness :
  (exists w',
      wait_for_files_active 2
        [snapshot "files/one" PROCESSING; snapshot "files/two" PROCESSING;
         snapshot "files/three" PROCESSING; snapshot "files/four" PROCESSING]
        poller_world =
      (Raise (mkException "Exception" "File files/three failed to process"), w') /\
      trace w' =
      [EvConfigure None;
       EvPrint ("Waiting for file processing..." +:+ nl);
       EvGetFile "files/one";
       EvPrint "."; EvSleep 10; EvGetFile "files/one";
       EvPrint "."; EvSleep 10; EvGetFile "files/one";
       EvGetFile "files/two";
       EvGetFile "files/three";
       EvPrint "."; EvSleep 10; EvGetFile "files/three"]) /\
  (exists w',
      wait_for_files_active 2
        [snapshot "files/one" PROCESSING; snapshot "files/two" PROCESSING;
         snapshot "files/four" PROCESSING]
        poller_world = (Return tt, w')).
Proof.
  split.
  - apply (proj1 wait_for_files_active_poller 2 poller_world
             (snapshot "files/one" PROCESSING) (snapshot "files/two" PROCESSING)
             (snapshot "files/three" PROCESSING)
             [snapshot "files/four" PROCESSING]);
      [lia|discriminate|discriminate|discriminate
      |solve_scripted|solve_scripted|solve_scripted].
  - apply (proj2 wait_for_files_active_poller 2 poller_world).
    repeat constructor.
    + exists 2. split; [lia|solve_scripted].
    + exists 0. split; [lia|solve_scripted].
    + exists 0. split; [lia|solve_scripted].
Defined.

Lemma analyze_video_from_url_roundtrip_witness :
  let w := set_chat_script [inr "A summary."] empty_world in
  "Analyze the video." <> EmptyString /\ "Summarize." <> EmptyString /\
  chat_script w = [inr "A summary."] /\
  exists model setup w',
    analyze_video_from_url "https://example.com/v.mp4" "gemini-1.5-flash"
      script_generation_config "Analyze the video." "Summarize." w =
    (Return "A summary.", w') /\
    (setup = [] \/ setup = [EvConfigure (GEMINI_API_KEY w); EvNewModel model]) /\
    let s := mkChat model [mkContent "user" [PartText "https://example.com/v.mp4"]] in
    trace w' = trace w ++ setup ++ [EvStartChat s; EvSendMessage s "Summarize."].
Proof.
  split; [discriminate|]. split; [discriminate|]. split; [reflexivity|].
  apply (analyze_video_from_url_roundtrip "https://example.com/v.mp4"
           "gemini-1.5-flash" script_generation_config "Analyze the video."
           "Summarize." (set_chat_script [inr "A summary."] empty_world)
           "A summary." []); [discriminate|discriminate|reflexivity].
Defined.

Lemma cache_wf_empty_world : cache_wf empty_world.
Proof.
  split.
  - intros key m H. discriminate H.
  - intros key1 key2 m1 m2 H. discriminate H.
Defined.

Lemma load_gemini_model_cached_witness :
  let between :=
    [CallUrl "https://example.com/v.mp4" "gemini-2.0-flash"
       script_generation_config "Analyze." "Summarize."] in
  cache_wf empty_world /\
  "Analyze." <> EmptyString /\ "Describe." <> EmptyString /\
  ("gemini-1.5-flash", script_generation_config, "Analyze.") <>
  ("gemini-1.5-flash", script_generation_config, "Describe.") /\
  (exists m w1,
      load_gemini_model "gemini-1.5-flash" script_generation_config "Analyze."
        empty_world = (Return m, w1) /\
      load_gemini_model "gemini-1.5-flash" script_generation_config "Analyze."
        (after_calls between w1) = (Return m, after_calls between w1)) /\
  exists m w1 m' w2,
    load_gemini_model "gemini-1.5-flash" script_generation_config "Analyze."
      empty_world = (Return m, w1) /\
    load_gemini_model "gemini-1.5-flash" script_generation_config "Describe."
      (after_calls between w1) = (Return m', w2) /\
    model_id m <> model_id m'.
Proof.
  intros between.
  split; [exact cache_wf_empty_world|].
  split; [discriminate|]. split; [discriminate|]. split; [discriminate|].
  split.
  - apply (proj1 load_gemini_model_cached). discriminate.
  - apply (proj2 load_gemini_model_cached);
      [exact cache_wf_empty_world|discriminate|discriminate|discriminate].
Defined.

Lemma module_start_missing_key_witness :
  (environ empty_world ∪ (∅ : gmap string string)) !! "GEMINI_API_KEY" = None /\
  exists w',
    module_start ∅ empty_world = (Return tt, w') /\
    GEMINI_API_KEY w' = None /\
    trace w' = trace empty_world /\
    configure_with_global w' = (Return tt, log [EvConfigure None] w').
Proof.
  split; [reflexivity|].
  apply (module_start_missing_key ∅ empty_world). reflexivity.
Defined.

Lemma temp_video_path_by_name_witness :
  temp_video_path (mkUpload "a.mp4" [x01%byte]) =
  temp_video_path (mkUpload "a.mp4" []) /\
  temp_video_path (mkUpload "a.mp4" []) <> "notes.txt" /\
  (save_and_upload two_videos [] [] (upload_world [])).1 =
  Return ([snapshot "files/one" PROCESSING; snapshot "files/two" ACTIVE],
          map temp_video_path two_videos).
Proof.
  split; [|split].
  - apply (proj1 temp_video_path_by_name). reflexivity.
  - apply (proj1 (proj2 temp_video_path_by_name)). reflexivity.
  - rewrite <- (proj2 (proj2 temp_video_path_by_name) two_videos (upload_world [])
               [snapshot "files/one" PROCESSING; snapshot "files/two" ACTIVE]
               ["temp_video_a.mp4"; "temp_video_b.mov"]
               (save_and_upload two_videos [] [] (upload_world [])).2).
    + vm_compute. reflexivity.
    + vm_compute. reflexivity.
Defined.

Lemma analyze_video_from_files_assets_witness :
  let w := upload_world [inr "A summary."] in
  let run :=
    analyze_video_from_files 1 two_videos "gemini-1.5-flash"
      script_generation_config "Analyze the videos." "Summarize." w in
  run = (Return "A summary.", run.2) /\
  exists assets model front w1,
    save_and_upload two_videos [] [] w =
    (Return (assets, map temp_video_path two_videos), w1) /\
    length assets = length two_videos /\
    upload_script w = (inr <$> assets) ++ upload_script w1 /\
    trace w1 =
    trace w ++ concat (zip_with (upload_round (GEMINI_API_KEY w)) two_videos assets) /\
    let s := mkChat model [mkContent "user" (map PartFile assets)] in
    trace run.2 = front ++ [EvStartChat s; EvSendMessage s "Summarize."].
Proof.
  intros w run.
  assert (run = (Return "A summary.", run.2)) as Hrun.
  { rewrite (surjective_pairing run) at 1.
    apply (f_equal (fun o => (o, run.2))). reflexivity. }
  split; [exact Hrun|].
  exact (analyze_video_from_files_assets 1 two_videos "gemini-1.5-flash"
           script_generation_config "Analyze the videos." "Summarize."
           w "A summary." run.2 Hrun).
Defined.



(** * More on the poller *)

Lemma poller_step_refl key names w : poller_step key names w w.
Proof. exists [], (remote_files w). split; [|constructor]. world_eq. by rewrite app_nil_r. Qed.

Lemma poller_step_trans key names w1 w2 w3 :
  poller_step key names w1 w2 -> poller_step key names w2 w3 ->
  poller_step key names w1 w3.
Proof.
  intros (es1 & r1 & -> & H1) (es2 & r2 & -> & H2).
  exists (es1 ++ es2), r2. split; [|by apply Forall_app].
  world_eq. by rewrite app_assoc.
Qed.

Lemma poller_step_log key names es w :
  Forall (poller_event key names) es -> poller_step key names w (log es w).
Proof. intros H. exists es, (remote_files w). split; [|done]. by world_eq. Qed.

Lemma poller_step_bind {A B} key names (m : M A) (f : A -> M B) w :
  poller_step key names w (m w).2 ->
  (forall a w1, poller_step key names w w1 -> poller_step key names w (f a w1).2) ->
  poller_step key names w ((m ≫= f) w).2.
Proof.
  intros Hm Hf. rewrite bind_run. destruct (m w) as [[a|e|] w1]; cbn [snd] in *.
  - by apply Hf.
  - done.
  - done.
Qed.

Lemma poller_step_get_file key names file_name w :
  file_name ∈ names ->
  poller_step key names w (genai.get_file file_name w).2.
Proof.
  intros Hin. unfold genai.get_file. unfold_world.
  destruct (remote_files w !! file_name) as [[|f rest]|]; cbn [snd].
  - apply poller_step_log. by repeat constructor.
  - eexists [EvGetFile file_name], _. split; [by world_eq|by repeat constructor].
  - apply poller_step_log. by repeat constructor.
Qed.

Lemma poller_step_while key names file_name fuel : forall file w0 w,
  file_name ∈ names ->
  poller_step key names w0 w ->
  poller_step key names w0 (while_processing fuel file_name file w).2.
Proof.
  induction fuel as [|fuel IH]; intros file w0 w Hin Hw; cbn [while_processing];
    destruct (String.eqb _ _); try exact Hw.
  unfold print_noeol, time.sleep.
  rewrite bind_run, emit_run. rewrite bind_run, emit_run. rewrite bind_run.
  pose proof (poller_step_get_file key names file_name
                (log [EvSleep 10] (log [EvPrint "."] w)) Hin) as Hget.
  destruct (genai.get_file _ _) as [[f|e|] w1]; cbn [snd] in *.
  - apply IH; [done|].
    eapply poller_step_trans; [exact Hw|].
    eapply poller_step_trans; [|exact Hget].
    rewrite log_log. apply poller_step_log. by repeat constructor.
  - eapply poller_step_trans; [exact Hw|].
    eapply poller_step_trans; [|exact Hget].
    rewrite log_log. apply poller_step_log. by repeat constructor.
  - eapply poller_step_trans; [exact Hw|].
    eapply poller_step_trans; [|exact Hget].
    rewrite log_log. apply poller_step_log. by repeat constructor.
Qed.

Lemma poller_step_poll_file key names file_name fuel w0 w :
  file_name ∈ names ->
  poller_step key names w0 w ->
  poller_step key names w0 (poll_file fuel file_name w).2.
Proof.
  intros Hin Hw. unfold poll_file. rewrite bind_run.
  pose proof (poller_step_get_file key names file_name w Hin) as Hget.
  destruct (genai.get_file _ _) as [[f|e|] w1]; cbn [snd] in *;
    try (eapply poller_step_trans; [exact Hw|exact Hget]).
  rewrite bind_run.
  pose proof (poller_step_while key names file_name fuel f w0 w1 Hin
                (poller_step_trans _ _ _ _ _ Hw Hget)) as Hloop.
  destruct (while_processing _ _ _ _) as [[f'|e|] w2]; cbn [snd] in *; try done.
  by destruct (negb _).
Qed.

Lemma poller_step_for_each key names fuel xs : forall w0 w,
  xs ⊆ names ->
  poller_step key names w0 w ->
  poller_step key names w0 (for_each xs (poll_file fuel) w).2.
Proof.
  induction xs as [|x xs IH]; intros w0 w Hsub Hw; cbn [for_each]; [done|].
  rewrite bind_run.
  pose proof (poller_step_poll_file key names x fuel w0 w) as Hx.
  destruct (poll_file _ _ _) as [[[]|e|] w1]; cbn [snd] in *.
  - apply IH; [set_solver|]. apply Hx; [set_solver|done].
  - apply Hx; [set_solver|done].
  - apply Hx; [set_solver|done].
Qed.

Lemma wait_for_files_active_step fuel files w :
  poller_step (GEMINI_API_KEY w) (map name files) w
    (wait_for_files_active fuel files w).2.
Proof.
  unfold wait_for_files_active, print.
  rewrite bind_run, configure_run. rewrite bind_run, emit_run. rewrite log_log.
  rewrite bind_run.
  match goal with
  | |- context [for_each ?xs ?b ?w0] =>
      pose proof (poller_step_for_each (GEMINI_API_KEY w) (map name files)
                    fuel xs w w0 (reflexivity _)) as Hloop
  end.
  destruct (for_each _ _ _) as [[[]|e|] w1]; cbn [snd] in *.
  - rewrite bind_run, emit_run, emit_run. cbn [snd]. rewrite log_log.
    eapply poller_step_trans.
    + apply Hloop. apply poller_step_log. by repeat constructor.
    + apply poller_step_log. by repeat constructor.
  - apply Hloop. apply poller_step_log. by repeat constructor.
  - apply Hloop. apply poller_step_log. by repeat constructor.
Qed.

(** However the poller ends, it has only configured the client with the key
    of the process, printed, fetched files of its list and slept 10 seconds
    at a time; the disk, the model cache and the scripts of the uploads and
    of the chat are as they were. *)
Theorem wait_for_files_active_footprint (fuel : nat) (files : list File) (w : World) :
  let w' := (wait_for_files_active fuel files w).2 in
  (exists es,
      trace w' = trace w ++ es /\
      Forall (poller_event (GEMINI_API_KEY w) (map name files)) es) /\
  fs w' = fs w /\
  model_cache w' = model_cache w /\
  upload_script w' = upload_script w /\
  chat_script w' = chat_script w /\
  GEMINI_API_KEY w' = GEMINI_API_KEY w.
Proof.
  cbn zeta.
  destruct (wait_for_files_active_step fuel files w) as (es & remote & -> & Hes).
  unfold_world. repeat split; eauto.
Qed.

Lemma poll_events_ok key names file_name k :
  file_name ∈ names ->
  Forall (poller_event key names) (EvGetFile file_name :: poll_events file_name k).
Proof.
  intros Hin. constructor; [done|].
  induction k as [|k IH]; cbn [poll_events]; by repeat constructor.
Qed.

(** Polling files that all become ACTIVE returns, and touches the scripts of
    those files only. *)
Lemma for_each_poll_active key names : forall fuel w,
  Forall (becomes_active w fuel) names ->
  exists es remote,
    for_each names (poll_file fuel) w =
    (Return tt, log es (set_remote_files remote w)) /\
    (forall n, n ∉ names -> remote !! n = remote_files w !! n) /\
    Forall (poller_event key names) es.
Proof.
  induction names as [|n names IH]; intros fuel w Hall.
  - exists [], (remote_files w). cbn [for_each]. rewrite ret_run.
    split; [|split; [done|constructor]]. world_eq. by rewrite app_nil_r.
  - apply Forall_cons in Hall as [(k & Hk & Hn) Hall].
    apply scripted_split in Hn as (pre & last & Hw & Hpre & Hlen & Hlast & Hname).
    cbn [for_each].
    erewrite bind_Return
      by (eapply poll_file_active; [eassumption|done|done|lia]).
    cbn [genai.advance].
    edestruct (IH fuel) as (es & remote & E & Hother & Hes).
    { eapply Forall_impl; [exact Hall|]. intros other Ho.
      by apply becomes_active_after. }
    rewrite E. eexists (_ ++ es), remote. split; [|split].
    + world_eq. rewrite <- app_assoc. reflexivity.
    + intros n' Hn'. rewrite Hother by set_solver. unfold_world.
      apply lookup_insert_ne. set_solver.
    + apply Forall_app. split.
      * apply poll_events_ok. set_solver.
      * eapply Forall_impl; [exact Hes|]. intros [] He; cbn in *; set_solver.
Qed.

Lemma for_each_app_run {A} (xs ys : list A) (body : A -> M unit) : forall w0 w1,
  for_each xs body w0 = (Return tt, w1) ->
  for_each (xs ++ ys) body w0 = for_each ys body w1.
Proof.
  induction xs as [|x xs IH]; intros w0 w1 Hxs.
  - cbn in Hxs. by injection Hxs as ->.
  - cbn [for_each app] in *. rewrite bind_run in *.
    destruct (body x w0) as [[[]|e|] w2]; try discriminate. by apply IH.
Qed.

(** The run of the poller up to the first file that fails. *)
Lemma wait_for_files_active_fails fuel k s ready f rest w :
  k <= fuel ->
  s <> PROCESSING -> s <> ACTIVE ->
  Forall (fun a => becomes_active w fuel (name a)) ready ->
  name f ∉ map name ready ->
  scripted w (name f) (replicate k PROCESSING ++ [s]) ->
  exists es remote,
    wait_for_files_active fuel (ready ++ f :: rest) w =
    (Raise (mkException "Exception" ("File " +:+ name f +:+ " failed to process")),
     log ([EvConfigure (GEMINI_API_KEY w);
           EvPrint ("Waiting for file processing..." +:+ nl)] ++
          es ++ EvGetFile (name f) :: poll_events (name f) k)
       (set_remote_files remote w)) /\
    Forall (poller_event (GEMINI_API_KEY w) (map name ready)) es.
Proof.
  intros Hfuel Hproc Hact Hready Hfresh Hscript.
  apply scripted_split in Hscript as (pre & last & Hw & Hpre & Hlen & Hlast & Hname).
  unfold wait_for_files_active. do 2 mstep.
  rewrite map_app. cbn [map].
  lazymatch goal with
  | |- exists _ _, (_ ≫= _) ?w0 = _ /\ _ =>
      destruct (for_each_poll_active (GEMINI_API_KEY w) (map name ready) fuel w0)
        as (es & remote & E & Hother & Hes)
  end.
  { apply Forall_fmap. eapply Forall_impl; [exact Hready|]. intros a Ha. exact Ha. }
  eexists es, _. split; [|exact Hes].
  erewrite bind_Raise; [reflexivity|].
  rewrite (for_each_app_run _ _ _ _ _ E). cbn [for_each].
  erewrite bind_Raise; [reflexivity|].
  rewrite <- Hname at 2.
  erewrite poll_file_failed; [|unfold_world; rewrite Hother by done; exact Hw
                              |done|congruence|congruence|lia].
  world_eq. rewrite Hlen, <- !app_assoc. reflexivity.
Qed.

(** The poller stops at the first file that ends in a state other than
    ACTIVE: the files before it are polled to ACTIVE, the file itself is
    fetched until it leaves PROCESSING, after [k] sleeps, and the exception
    that names it is raised; no file after it is fetched. STATE_UNSPECIFIED
    counts as a failure like FAILED. *)
Theorem wait_for_files_active_first_failure
    (fuel k : nat) (s : FileState) (ready : list File) (f : File)
    (rest : list File) (w : World) :
  k <= fuel ->
  s <> PROCESSING -> s <> ACTIVE ->
  Forall (fun a => becomes_active w fuel (name a)) ready ->
  name f ∉ map name ready ->
  scripted w (name f) (replicate k PROCESSING ++ [s]) ->
  exists w' es,
    wait_for_files_active fuel (ready ++ f :: rest) w =
    (Raise (mkException "Exception" ("File " +:+ name f +:+ " failed to process")),
     w') /\
    trace w' =
    trace w ++
    [EvConfigure (GEMINI_API_KEY w);
     EvPrint ("Waiting for file processing..." +:+ nl)] ++
    es ++ EvGetFile (name f) :: poll_events (name f) k /\
    Forall (poller_event (GEMINI_API_KEY w) (map name ready)) es.
Proof.
  intros Hfuel Hproc Hact Hready Hfresh Hscript.
  destruct (wait_for_files_active_fails fuel k s ready f rest w
              Hfuel Hproc Hact Hready Hfresh Hscript)
    as (es & remote & E & Hes).
  eexists _, es. split; [exact E|]. split; [reflexivity|exact Hes].
Qed.

Lemma wait_for_files_active_first_failure_witness :
  Forall (fun a => becomes_active poller_world 2 (name a))
    [snapshot "files/two" PROCESSING; snapshot "files/one" PROCESSING] /\
  scripted poller_world "files/three" (replicate 1 PROCESSING ++ [FAILED]) /\
  exists w' es,
    wait_for_files_active 2
      ([snapshot "files/two" PROCESSING; snapshot "files/one" PROCESSING] ++
       snapshot "files/three" PROCESSING :: [snapshot "files/four" PROCESSING])
      poller_world =
    (Raise (mkException "Exception" "File files/three failed to process"), w') /\
    trace w' =
    trace poller_world ++
    [EvConfigure None; EvPrint ("Waiting for file processing..." +:+ nl)] ++
    es ++ [EvGetFile "files/three"; EvPrint "."; EvSleep 10; EvGetFile "files/three"] /\
    Forall (poller_event None ["files/two"; "files/one"]) es.
Proof.
  assert (Forall (fun a => becomes_active poller_world 2 (name a))
            [snapshot "files/two" PROCESSING; snapshot "files/one" PROCESSING])
    as Hready.
  { repeat constructor.
    - exists 0. split; [lia|solve_scripted].
    - exists 2. split; [lia|solve_scripted]. }
  split; [exact Hready|]. split; [solve_scripted|].
  apply (wait_for_files_active_first_failure 2 1 FAILED
           [snapshot "files/two" PROCESSING; snapshot "files/one" PROCESSING]
           (snapshot "files/three" PROCESSING)
           [snapshot "files/four" PROCESSING] poller_world);
    [lia|discriminate|discriminate|exact Hready| |solve_scripted].
  cbn. intros H. repeat (apply elem_of_cons in H as [H|H]; [discriminate H|]).
  by apply elem_of_nil in H.
Defined.

(** The loop on a file that never leaves PROCESSING uses up any fuel. *)
Lemma while_processing_stuck file_name fuel : forall file snapshots w,
  state file = PROCESSING ->
  remote_files w !! file_name = Some snapshots ->
  snapshots <> [] ->
  Forall (fun f => state f = PROCESSING) snapshots ->
  exists remote,
    while_processing fuel file_name file w =
    (Diverge, log (poll_events file_name fuel) (set_remote_files remote w)).
Proof.
  induction fuel as [|fuel IH]; intros file snaps w Hfile Hw Hne Hall;
    cbn [while_processing];
    rewrite processing_test, bool_decide_eq_true_2 by done.
  - exists (remote_files w). unfold diverge. world_eq. by rewrite app_nil_r.
  - destruct snaps as [|f snaps]; [done|].
    apply Forall_cons in Hall as [Hf Hall].
    unfold print_noeol, time.sleep. do 3 mstep.
    edestruct (IH f (genai.advance (f :: snaps))) as [remote E];
      [exact Hf| | | |rewrite E].
    + unfold_world. apply lookup_insert_eq.
    + by destruct snaps.
    + destruct snaps; [by repeat constructor|done].
    + exists remote. world_eq. cbn [poll_events]. by rewrite <- !app_assoc.
Qed.

Lemma poll_file_stuck fuel file_name w :
  stuck w file_name ->
  exists remote,
    poll_file fuel file_name w =
    (Diverge,
     log (EvGetFile file_name :: poll_events file_name fuel)
       (set_remote_files remote w)).
Proof.
  intros (snaps & Hw & Hne & Hall).
  destruct snaps as [|f0 snaps]; [done|].
  apply Forall_cons in Hall as [Hf0 Hall].
  unfold poll_file. mstep.
  lazymatch goal with
  | |- exists _, (_ ≫= _) ?w0 = _ =>
      destruct (while_processing_stuck file_name fuel f0
                  (genai.advance (f0 :: snaps)) w0) as [remote E]
  end.
  { exact Hf0. }
  { unfold_world. apply lookup_insert_eq. }
  { by destruct snaps. }
  { destruct snaps; [by repeat constructor|done]. }
  exists remote. rewrite bind_run, E. world_eq.
  by rewrite <- app_assoc.
Qed.

(** The poller has no time limit: on a file that never leaves PROCESSING it
    is still waiting after any number of rounds, having slept once per
    round, and it never reaches the files after it. *)
Theorem wait_for_files_active_never_gives_up
    (fuel : nat) (f : File) (rest : list File) (w : World) :
  stuck w (name f) ->
  exists w',
    wait_for_files_active fuel (f :: rest) w = (Diverge, w') /\
    trace w' =
    trace w ++
    [EvConfigure (GEMINI_API_KEY w);
     EvPrint ("Waiting for file processing..." +:+ nl);
     EvGetFile (name f)] ++ poll_events (name f) fuel.
Proof.
  intros Hstuck.
  unfold wait_for_files_active. do 2 mstep. cbn [map for_each].
  lazymatch goal with
  | |- exists _, _ ?w0 = _ /\ _ =>
      destruct (poll_file_stuck fuel (name f) w0 Hstuck) as [remote E]
  end.
  eexists. split.
  - rewrite !bind_run, E. reflexivity.
  - unfold_world. by rewrite <- !app_assoc.
Qed.

Lemma wait_for_files_active_never_gives_up_witness :
  let w :=
    set_remote_files {["files/slow" := [snapshot "files/slow" PROCESSING]]}
      empty_world in
  stuck w "files/slow" /\
  exists w',
    wait_for_files_active 3 [snapshot "files/slow" PROCESSING] w = (Diverge, w') /\
    trace w' =
    [EvConfigure None;
     EvPrint ("Waiting for file processing..." +:+ nl);
     EvGetFile "files/slow";
     EvPrint "."; EvSleep 10; EvGetFile "files/slow";
     EvPrint "."; EvSleep 10; EvGetFile "files/slow";
     EvPrint "."; EvSleep 10; EvGetFile "files/slow"].
Proof.
  intros w.
  assert (stuck w "files/slow") as Hstuck.
  { eexists. split; [vm_compute; reflexivity|].
    split; [discriminate|repeat constructor]. }
  split; [exact Hstuck|].
  exact (wait_for_files_active_never_gives_up 3
           (snapshot "files/slow" PROCESSING) [] w Hstuck).
Defined.

(** * The process over its life: key and environment *)

Lemma process_step_refl w : process_step w w.
Proof.
  repeat split; try done. exists []. split; [by rewrite app_nil_r|constructor].
Qed.

Lemma process_step_trans w1 w2 w3 :
  process_step w1 w2 -> process_step w2 w3 -> process_step w1 w3.
Proof.
  intros (He1 & Hk1 & es1 & Ht1 & Hes1) (He2 & Hk2 & es2 & Ht2 & Hes2).
  split; [congruence|]. split; [congruence|].
  exists (es1 ++ es2). split; [by rewrite Ht2, Ht1, app_assoc|].
  apply Forall_app. split; [done|]. by rewrite <- Hk1.
Qed.

(** A step that adds the events [es] and leaves the environment and the key
    alone. *)
Lemma process_step_frame es w w' :
  environ w' = environ w -> GEMINI_API_KEY w' = GEMINI_API_KEY w ->
  trace w' = trace w ++ es ->
  Forall (configured_with (GEMINI_API_KEY w)) es ->
  process_step w w'.
Proof. intros He Hk Ht Hes. split; [done|]. split; [done|]. eauto. Qed.

Lemma keeps_process_ret {A} (a : A) : keeps_process (mret a : M A).
Proof. intros w. apply process_step_refl. Qed.

Lemma keeps_process_bind {A B} (m : M A) (f : A -> M B) :
  keeps_process m -> (forall a, keeps_process (f a)) -> keeps_process (m ≫= f).
Proof.
  intros Hm Hf w. rewrite bind_run. specialize (Hm w).
  destruct (m w) as [[a|e|] w1]; [|done|done].
  eapply process_step_trans; [exact Hm|apply Hf].
Qed.

Lemma keeps_process_for_each {A} (xs : list A) (body : A -> M unit) :
  (forall x, keeps_process (body x)) -> keeps_process (for_each xs body).
Proof.
  intros Hbody. induction xs as [|x xs IH]; cbn [for_each].
  - apply keeps_process_ret.
  - apply keeps_process_bind; [apply Hbody|intros _; exact IH].
Qed.

(** Calls that add at most one event, not a configure call, and leave the
    environment and the key alone. *)
Ltac solve_process_frame :=
  intros w;
  repeat match goal with
         | |- context [match ?x with _ => _ end] => destruct x
         end;
  cbn [snd];
  first
    [ apply process_step_refl
    | apply (process_step_frame []); unfold_world;
      [reflexivity|reflexivity|by rewrite app_nil_r|constructor]
    | eapply (process_step_frame [_]); unfold_world;
      [reflexivity|reflexivity|reflexivity|by repeat constructor] ].

Lemma keeps_process_raise {A} e : keeps_process (raise e : M A).
Proof. solve_process_frame. Qed.

Lemma keeps_process_diverge {A} : keeps_process (diverge : M A).
Proof. solve_process_frame. Qed.

Lemma keeps_process_print s : keeps_process (print s).
Proof. solve_process_frame. Qed.

Lemma keeps_process_print_noeol s : keeps_process (print_noeol s).
Proof. solve_process_frame. Qed.

Lemma keeps_process_sleep seconds : keeps_process (time.sleep seconds).
Proof. solve_process_frame. Qed.

Lemma keeps_process_configure : keeps_process configure_with_global.
Proof. solve_process_frame. Qed.

Lemma keeps_process_get_file file_name : keeps_process (genai.get_file file_name).
Proof. unfold genai.get_file. solve_process_frame. Qed.

Lemma keeps_process_upload_file path mime : keeps_process (genai.upload_file path mime).
Proof. unfold genai.upload_file. solve_process_frame. Qed.

Lemma keeps_process_send_message s message : keeps_process (genai.send_message s message).
Proof. unfold genai.send_message. solve_process_frame. Qed.

Lemma keeps_process_start_chat model history : keeps_process (genai.start_chat model history).
Proof. solve_process_frame. Qed.

Lemma keeps_process_write_file path data : keeps_process (os.write_file path data).
Proof. solve_process_frame. Qed.

Lemma keeps_process_path_exists path : keeps_process (os.path_exists path).
Proof. solve_process_frame. Qed.

Lemma keeps_process_remove path : keeps_process (os.remove path).
Proof. unfold os.remove. solve_process_frame. Qed.

Create HintDb process.

#[global] Hint Resolve keeps_process_ret keeps_process_bind keeps_process_for_each
  keeps_process_raise keeps_process_diverge keeps_process_print
  keeps_process_print_noeol keeps_process_sleep keeps_process_configure
  keeps_process_get_file keeps_process_upload_file keeps_process_send_message
  keeps_process_start_chat keeps_process_write_file keeps_process_path_exists
  keeps_process_remove : process.

Lemma keeps_process_load model_name cfg instr :
  keeps_process (load_gemini_model model_name cfg instr).
Proof.
  intros w.
  destruct (load_ends model_name cfg instr w)
    as [(model & setup & cache & nid & -> & Hsetup)|[_ ->]]; cbn [snd].
  - apply (process_step_frame setup); unfold_world; try reflexivity.
    destruct Hsetup as [->| ->]; by repeat constructor.
  - apply (process_step_frame [EvConfigure (GEMINI_API_KEY w)]);
      unfold_world; try reflexivity. by repeat constructor.
Qed.

Lemma keeps_process_while_processing fuel : forall file_name file,
  keeps_process (while_processing fuel file_name file).
Proof.
  induction fuel as [|fuel IH]; intros file_name file; cbn [while_processing];
    destruct (String.eqb _ _); eauto 10 with process.
Qed.

Lemma keeps_process_wait fuel files : keeps_process (wait_for_files_active fuel files).
Proof.
  unfold wait_for_files_active.
  assert (forall file_name, keeps_process (poll_file fuel file_name)) as Hpoll.
  { intros file_name. unfold poll_file.
    apply keeps_process_bind; [auto with process|intros f].
    apply keeps_process_bind; [apply keeps_process_while_processing|intros f'].
    destruct (negb _); auto with process. }
  eauto 10 with process.
Qed.

Lemma keeps_process_save_and_upload files : forall ups paths,
  keeps_process (save_and_upload files ups paths).
Proof.
  induction files as [|vf files IH]; intros ups paths; cbn [save_and_upload].
  - apply keeps_process_ret.
  - unfold upload_to_gemini. eauto 12 with process.
Qed.

Lemma keeps_process_remove_temp_videos paths : keeps_process (remove_temp_videos paths).
Proof.
  unfold remove_temp_videos. apply keeps_process_for_each. intros path.
  apply keeps_process_bind; [auto with process|]. intros []; auto with process.
Qed.

Lemma keeps_process_analyze_video_from_url url model_name cfg instr prompt :
  keeps_process (analyze_video_from_url url model_name cfg instr prompt).
Proof.
  unfold analyze_video_from_url.
  pose proof (keeps_process_load model_name cfg instr). eauto 10 with process.
Qed.

Lemma keeps_process_analyze_video_from_files fuel files model_name cfg instr prompt :
  keeps_process (analyze_video_from_files fuel files model_name cfg instr prompt).
Proof.
  unfold analyze_video_from_files.
  apply keeps_process_bind; [apply keeps_process_save_and_upload|intros [ups paths]].
  apply keeps_process_bind; [apply keeps_process_wait|intros _].
  apply keeps_process_bind; [apply keeps_process_load|intros model].
  pose proof (keeps_process_remove_temp_videos paths). eauto 10 with process.
Qed.

Lemma process_step_after_calls cs : forall w, process_step w (after_calls cs w).
Proof.
  induction cs as [|c cs IH]; intros w; cbn [after_calls fold_left].
  - apply process_step_refl.
  - eapply process_step_trans; [|apply IH].
    destruct c; cbn [after_call].
    + apply keeps_process_load.
    + apply keeps_process_analyze_video_from_url.
    + apply keeps_process_analyze_video_from_files.
Qed.

(** The key read at start-up is the key of every later service call: over
    any sequence of calls of the script, however each ends, the global
    [GEMINI_API_KEY] and the environment keep their values and every
    [genai.configure] call passes that key. *)
Theorem api_key_fixed_for_life (cs : list Call) (w : World) :
  GEMINI_API_KEY (after_calls cs w) = GEMINI_API_KEY w /\
  environ (after_calls cs w) = environ w /\
  exists es,
    trace (after_calls cs w) = trace w ++ es /\
    Forall (configured_with (GEMINI_API_KEY w)) es.
Proof.
  destruct (process_step_after_calls cs w) as (He & Hk & Hes). eauto.
Qed.

(** * More on the analysis from a URL *)

(** After a call of [load_gemini_model] that returned, the handle is in the
    cache under the arguments of the call. *)
Lemma load_caches model_name cfg instr w m w1 :
  load_gemini_model model_name cfg instr w = (Return m, w1) ->
  model_cache w1 !! (model_name, cfg, instr) = Some m.
Proof.
  destruct (model_cache w !! (model_name, cfg, instr)) as [m0|] eqn:E.
  - rewrite (load_cached _ _ _ m0) by done. by intros [= <- <-].
  - destruct (String.eqb_spec instr EmptyString) as [->|Hinstr].
    { by rewrite load_refused. }
    rewrite load_fresh by done. intros [= <- <-]. unfold_world.
    apply lookup_insert_eq.
Qed.

(** What the analysis from a URL ends with, and the world it leaves, when
    the client accepts the system instruction and the prompt. *)
Lemma analyze_video_from_url_shape url model_name cfg instr prompt w :
  instr <> EmptyString -> prompt <> EmptyString ->
  exists model setup cache nid,
    analyze_video_from_url url model_name cfg instr prompt w =
    let s := mkChat model [mkContent "user" [PartText url]] in
    let w1 :=
      log [EvStartChat s; EvSendMessage s prompt]
        (set_model_cache cache (log setup (set_next_id nid w))) in
    match chat_script w with
    | inr reply :: rest => (Return reply, set_chat_script rest w1)
    | inl e :: rest => (Raise e, set_chat_script rest w1)
    | [] => (Raise (mkException "ConnectionError" prompt), w1)
    end.
Proof.
  intros Hinstr Hprompt.
  destruct (load_run model_name cfg instr w Hinstr)
    as (model & setup & cache & nid & E & _).
  exists model, setup, cache, nid. cbn zeta.
  unfold analyze_video_from_url.
  erewrite bind_Return by exact E.
  erewrite bind_Return by apply start_chat_run.
  rewrite bind_run. unfold genai.send_message.
  rewrite (nonempty_test _ Hprompt). unfold_world.
  destruct (chat_script w) as [|[e|reply] rest]; rewrite ?ret_run; world_eq;
    by rewrite <- ?app_assoc.
Qed.

Lemma analyze_video_from_url_outcome url model_name cfg instr prompt w :
  instr <> EmptyString -> prompt <> EmptyString ->
  (analyze_video_from_url url model_name cfg instr prompt w).1 =
  match chat_script w with
  | inr reply :: _ => Return reply
  | inl e :: _ => Raise e
  | [] => Raise (mkException "ConnectionError" prompt)
  end.
Proof.
  intros Hinstr Hprompt.
  destruct (analyze_video_from_url_shape url model_name cfg instr prompt w
              Hinstr Hprompt) as (model & setup & cache & nid & ->).
  cbn zeta. by destruct (chat_script w) as [|[e|reply] rest].
Qed.

(** However the analysis from a URL ends, it ends, and the world it leaves
    differs from the one it started in by the cache and the allocator, the
    trace, and at most one answer of the chat used up. *)
Lemma analyze_video_from_url_ends url model_name cfg instr prompt w :
  let run := analyze_video_from_url url model_name cfg instr prompt w in
  run.1 <> Diverge /\
  exists es cache nid script,
    run.2 = set_chat_script script
              (set_model_cache cache (log es (set_next_id nid w))) /\
    (script = chat_script w \/ script = drop 1 (chat_script w)).
Proof.
  cbn zeta. unfold analyze_video_from_url.
  destruct (load_ends model_name cfg instr w)
    as [(model & setup & cache & nid & E & _)|[_ E]].
  - erewrite bind_Return by exact E.
    erewrite bind_Return by apply start_chat_run.
    rewrite bind_run. unfold genai.send_message.
    destruct (String.eqb prompt EmptyString).
    + split; [done|]. cbn [snd].
      eexists (setup ++ [_]), cache, nid, (chat_script w).
      split; [|by left]. world_eq. by rewrite <- ?app_assoc.
    + unfold_world.
      destruct (chat_script w) as [|[e|reply] rest] eqn:Hchat;
        rewrite ?ret_run; (split; [done|]); cbn [snd].
      * eexists (setup ++ [_; _]), cache, nid, [].
        split; [|by left]. world_eq; by rewrite ?Hchat, <- ?app_assoc.
      * eexists (setup ++ [_; _]), cache, nid, rest.
        split; [|by right]. world_eq; by rewrite <- ?app_assoc.
      * eexists (setup ++ [_; _]), cache, nid, rest.
        split; [|by right]. world_eq; by rewrite <- ?app_assoc.
  - erewrite bind_Raise by exact E. split; [done|]. cbn [snd].
    exists [EvConfigure (GEMINI_API_KEY w)], (model_cache w), (next_id w),
      (chat_script w).
    split; [|by left]. by world_eq.
Qed.

(** The analysis from a URL always ends and touches neither the disk nor
    the remote files nor the uploads; it uses up at most one answer of the
    chat. When the client accepts the system instruction and the prompt,
    neither of them empty, it ends with what the service answers to the one
    message, the reply text returned or the error raised as it is, and uses
    up exactly that one answer. *)
Theorem analyze_video_from_url_footprint
    (url model_name : string) (cfg : GenerationConfig) (instr prompt : string)
    (w : World) :
  let run := analyze_video_from_url url model_name cfg instr prompt w in
  run.1 <> Diverge /\
  fs run.2 = fs w /\
  remote_files run.2 = remote_files w /\
  upload_script run.2 = upload_script w /\
  (chat_script run.2 = chat_script w \/
   chat_script run.2 = drop 1 (chat_script w)) /\
  (instr <> EmptyString -> prompt <> EmptyString ->
   run.1 =
     match chat_script w with
     | inr reply :: _ => Return reply
     | inl e :: _ => Raise e
     | [] => Raise (mkException "ConnectionError" prompt)
     end /\
   chat_script run.2 = drop 1 (chat_script w)).
Proof.
  cbn zeta.
  destruct (analyze_video_from_url_ends url model_name cfg instr prompt w)
    as (Hends & es & cache & nid & script & E & Hscript).
  cbn zeta in *. split; [exact Hends|].
  split; [by rewrite E|]. split; [by rewrite E|]. split; [by rewrite E|].
  split; [rewrite E; exact Hscript|].
  intros Hinstr Hprompt.
  split; [by apply analyze_video_from_url_outcome|].
  destruct (analyze_video_from_url_shape url model_name cfg instr prompt w
              Hinstr Hprompt) as (model & setup & cache' & nid' & ->).
  cbn zeta.
  destruct (chat_script w) as [|[e|reply] rest] eqn:Hchat;
    cbn [snd]; unfold_world; rewrite ?Hchat; done.
Qed.

Lemma analyze_video_from_url_footprint_witness :
  let w := set_chat_script [inr "A summary."; inr "Another."] empty_world in
  let run :=
    analyze_video_from_url "https://example.com/v.mp4" "gemini-1.5-flash"
      script_generation_config "Analyze." "Summarize." w in
  "Analyze." <> EmptyString /\ "Summarize." <> EmptyString /\
  run.1 = Return "A summary." /\ chat_script run.2 = [inr "Another."].
Proof.
  intros w run. split; [discriminate|]. split; [discriminate|].
  apply (proj2 (proj2 (proj2 (proj2 (proj2
           (analyze_video_from_url_footprint "https://example.com/v.mp4"
              "gemini-1.5-flash" script_generation_config "Analyze."
              "Summarize." w))))));
    discriminate.
Defined.

(** A failed analysis still leaves the model cached: when the client
    accepts the system instruction and the prompt and the service answers
    the message with an error, the error is raised, and a later
    [load_gemini_model] with the same arguments returns the handle the
    failed call used, constructing nothing. *)
Theorem analyze_video_from_url_error_keeps_model
    (url model_name : string) (cfg : GenerationConfig) (instr prompt : string)
    (w : World) (e : Exception) (rest : list (Exception + string)) :
  instr <> EmptyString -> prompt <> EmptyString ->
  chat_script w = inl e :: rest ->
  exists model w',
    analyze_video_from_url url model_name cfg instr prompt w = (Raise e, w') /\
    last (trace w') =
      Some (EvSendMessage (mkChat model [mkContent "user" [PartText url]]) prompt) /\
    load_gemini_model model_name cfg instr w' = (Return model, w').
Proof.
  intros Hinstr Hprompt Hchat.
  destruct (load_run model_name cfg instr w Hinstr)
    as (model & setup & cache & nid & E & _).
  pose proof (load_caches _ _ _ _ _ _ E) as Hcached.
  exists model. eexists. split; [|split].
  - unfold analyze_video_from_url.
    erewrite bind_Return by exact E.
    erewrite bind_Return by apply start_chat_run.
    eapply bind_Raise. apply send_message_error; [exact Hprompt|exact Hchat].
  - unfold_world. by rewrite last_snoc.
  - apply load_cached. exact Hcached.
Qed.

Lemma analyze_video_from_url_error_keeps_model_witness :
  let w :=
    set_chat_script [inl (mkException "ResourceExhausted" "quota")] empty_world in
  "Analyze." <> EmptyString /\ "Summarize." <> EmptyString /\
  chat_script w = [inl (mkException "ResourceExhausted" "quota")] /\
  exists model w',
    analyze_video_from_url "https://example.com/v.mp4" "gemini-1.5-flash"
      script_generation_config "Analyze." "Summarize." w =
    (Raise (mkException "ResourceExhausted" "quota"), w') /\
    last (trace w') =
      Some (EvSendMessage
              (mkChat model [mkContent "user" [PartText "https://example.com/v.mp4"]])
              "Summarize.") /\
    load_gemini_model "gemini-1.5-flash" script_generation_config "Analyze." w' =
    (Return model, w').
Proof.
  intros w. split; [discriminate|]. split; [discriminate|]. split; [reflexivity|].
  apply (analyze_video_from_url_error_keeps_model "https://example.com/v.mp4"
           "gemini-1.5-flash" script_generation_config "Analyze." "Summarize."
           w (mkException "ResourceExhausted" "quota") []);
    [discriminate|discriminate|reflexivity].
Defined.

(** * More on the analysis from files: the disk *)

Lemma write_all_lookup_other files : forall disk p,
  p ∉ map temp_video_path files -> write_all files disk !! p = disk !! p.
Proof.
  induction files as [|vf files IH]; intros disk p Hp; [done|].
  cbn [map] in Hp. apply not_elem_of_cons in Hp as [Hne Hp].
  cbn [write_all fold_left]. fold (write_all files).
  rewrite IH by done. by apply lookup_insert_ne.
Qed.

(** However the first loop ends, and it does end, the disk holds the
    temporary copies of the first [n] input files on top of what it held;
    [n] is the number of input files when the loop returns. Nothing else
    changed but the script of the uploads and the trace. *)
Lemma save_and_upload_disk files : forall ups paths w,
  exists n es script,
    (save_and_upload files ups paths w).2 =
    set_upload_script script (log es (set_fs (write_all (take n files) (fs w)) w)) /\
    n <= length files /\
    (forall r, (save_and_upload files ups paths w).1 = Return r -> n = length files) /\
    (save_and_upload files ups paths w).1 <> Diverge.
Proof.
  induction files as [|vf files IH]; intros ups paths w.
  - exists 0, [], (upload_script w). cbn [save_and_upload]. rewrite ret_run.
    cbn [fst snd take write_all fold_left length]. split; [|done].
    world_eq. by rewrite app_nil_r.
  - rewrite save_and_upload_cons. cbn zeta.
    destruct (upload_script w) as [|[e|f] rest] eqn:Hscript.
    + exists 1, [EvConfigure (GEMINI_API_KEY w); upload_event vf], [].
      cbn [fst snd take write_all fold_left length]. split; [by world_eq|].
      split; [lia|]. split; [discriminate|discriminate].
    + exists 1, [EvConfigure (GEMINI_API_KEY w); upload_event vf], rest.
      cbn [fst snd take write_all fold_left length]. split; [by world_eq|].
      split; [lia|]. split; [discriminate|discriminate].
    + match goal with
      | |- context [save_and_upload files ?u ?p ?w0] =>
          destruct (IH u p w0) as (n & es & script & E & Hn & Hret & Hdiv)
      end.
      eexists (S n), (_ ++ es), script. rewrite E.
      split; [|split; [cbn; lia|split; [|done]]].
      * world_eq. rewrite <- app_assoc. reflexivity.
      * intros r Hr. cbn [length]. f_equal. by apply (Hret r).
Qed.

(** The last loop removes exactly the paths it is given, those that exist. *)
Lemma remove_temp_videos_exact paths : forall w,
  exists disk,
    remove_temp_videos paths w = (Return tt, set_fs disk w) /\
    forall p, disk !! p = if decide (p ∈ paths) then None else fs w !! p.
Proof.
  unfold remove_temp_videos.
  induction paths as [|path paths IH]; intros w.
  - exists (fs w). cbn [for_each]. rewrite ret_run. split; [by world_eq|].
    intros p. rewrite decide_False; [done|]. apply not_elem_of_nil.
  - cbn [for_each]. rewrite <- bind_assoc.
    erewrite bind_Return by reflexivity.
    assert (exists w1,
               (if bool_decide (is_Some (fs w !! path))
                then os.remove path else mret tt) w = (Return tt, set_fs w1 w) /\
               w1 !! path = None /\
               forall p, p <> path -> w1 !! p = fs w !! p) as (w1 & Hstep & Hgone & Hkeep).
    { destruct (fs w !! path) as [data|] eqn:Hpath.
      - rewrite bool_decide_eq_true_2 by eauto.
        exists (delete path (fs w)). unfold os.remove. rewrite Hpath.
        split; [done|]. split; [apply lookup_delete_eq|].
        intros p Hp. by apply lookup_delete_ne.
      - rewrite bool_decide_eq_false_2 by (intros [? ?]; discriminate).
        exists (fs w). rewrite ret_run. split; [by world_eq|]. done. }
    erewrite bind_Return by exact Hstep.
    destruct (IH (set_fs w1 w)) as (disk & E & Hdisk).
    exists disk. rewrite E. split; [by world_eq|].
    intros p. rewrite Hdisk. unfold_world.
    destruct (decide (p = path)) as [->|Hne].
    + rewrite (decide_True (P := path ∈ path :: paths)) by (apply elem_of_cons; by left).
      by destruct (decide (path ∈ paths)).
    + rewrite Hkeep by done.
      destruct (decide (p ∈ paths)) as [Hin|Hout].
      * rewrite decide_True; [done|]. apply elem_of_cons. by right.
      * rewrite decide_False; [done|]. intros [?|?]%elem_of_cons; done.
Qed.

(** What follows the first loop leaves the disk alone unless it returns. *)
Lemma after_uploads_disk fuel ups paths model_name cfg instr prompt w :
  let rest :=
    (wait_for_files_active fuel ups ;;
     model ← load_gemini_model model_name cfg instr;
     chat_session ← genai.start_chat model [mkContent "user" (map PartFile ups)];
     response ← genai.send_message chat_session prompt;
     remove_temp_videos paths ;;
     mret (text response)) in
  (exists r disk,
      (rest w).1 = Return r /\
      fs (rest w).2 = disk /\
      forall p, disk !! p = if decide (p ∈ paths) then None else fs w !! p) \/
  ((forall r, (rest w).1 <> Return r) /\ fs (rest w).2 = fs w).
Proof.
  cbn zeta. rewrite bind_run.
  destruct (wait_for_files_active_step fuel ups w) as (es & remote & Ew & _).
  destruct (wait_for_files_active fuel ups w) as [[[]|e|] w1]; cbn [snd] in Ew;
    subst w1; [|by right|by right].
  destruct (load_ends model_name cfg instr (log es (set_remote_files remote w)))
    as [(model & setup & cache & nid & E & _)|[_ E]];
    [|erewrite bind_Raise by exact E; by right].
  erewrite bind_Return by exact E.
  erewrite bind_Return by apply start_chat_run.
  rewrite bind_run. unfold genai.send_message.
  destruct (String.eqb prompt EmptyString); [by right|].
  unfold_world.
  destruct (chat_script w) as [|[e|reply] crest]; [by right|by right|].
  left.
  match goal with
  | |- context [(remove_temp_videos paths ≫= _) ?w0] =>
      destruct (remove_temp_videos_exact paths w0) as (disk & Er & Hdisk)
  end.
  erewrite bind_Return by exact Er. rewrite ret_run. cbn [fst snd].
  exists reply, disk. split; [done|]. split; [done|]. exact Hdisk.
Qed.



(** When the analysis returns, the disk is what it was before the call
    without the temporary paths of the input files: every other path keeps
    its content, and a file that already stood at a temporary path is gone
    with the copy that replaced it. *)
Theorem analyze_video_from_files_disk_after_return
    (fuel : nat) (files : list UploadedFile) (model_name : string)
    (cfg : GenerationConfig) (instr prompt : string) (w : World)
    (r : string) (w' : World) :
  analyze_video_from_files fuel files model_name cfg instr prompt w =
  (Return r, w') ->
  forall p,
    fs w' !! p =
    if decide (p ∈ map temp_video_path files) then None else fs w !! p.
Proof.
  intros Hrun p. unfold analyze_video_from_files in Hrun.
  rewrite bind_run in Hrun.
  destruct (save_and_upload_disk files [] [] w) as (n & es & script & E & _ & Hret & _).
  pose proof (save_and_upload_paths files [] [] w) as Hpaths.
  destruct (save_and_upload files [] [] w) as [[[ups paths]|e|] w1];
    cbn beta iota in Hrun; cbn [fst snd] in *; try discriminate.
  specialize (Hpaths _ _ _ eq_refl). cbn [app] in Hpaths. subst paths w1.
  rewrite (Hret _ eq_refl), firstn_all in Hrun.
  match type of Hrun with
  | context [(wait_for_files_active fuel ups ≫= _) ?w0] =>
      destruct (after_uploads_disk fuel ups (map temp_video_path files)
                  model_name cfg instr prompt w0)
        as [(r' & disk & _ & Hfs & Hdisk)|[Hno _]]
  end.
  - cbn zeta in *. rewrite Hrun in Hfs. cbn [snd] in Hfs. subst disk.
    rewrite Hdisk. unfold_world. case_decide; [done|].
    by apply write_all_lookup_other.
  - cbn zeta in Hno. rewrite Hrun in Hno. by destruct (Hno r).
Qed.

Lemma analyze_video_from_files_disk_after_return_witness :
  let w :=
    set_fs (<["temp_video_a.mp4" := [x09%byte]]> (<["notes.txt" := [x07%byte]]> ∅))
      (upload_world [inr "A summary."]) in
  let run :=
    analyze_video_from_files 1 two_videos "gemini-1.5-flash"
      script_generation_config "Analyze." "Summarize." w in
  run = (Return "A summary.", run.2) /\
  fs run.2 !! "temp_video_a.mp4" = None /\
  fs run.2 !! "notes.txt" = Some [x07%byte].
Proof.
  intros w run.
  assert (run = (Return "A summary.", run.2)) as Hrun.
  { rewrite (surjective_pairing run) at 1.
    apply (f_equal (fun o => (o, run.2))). reflexivity. }
  split; [exact Hrun|].
  pose proof (analyze_video_from_files_disk_after_return 1 two_videos
                "gemini-1.5-flash" script_generation_config "Analyze."
                "Summarize." w "A summary." run.2 Hrun) as Hdisk.
  split.
  - exact (Hdisk "temp_video_a.mp4").
  - exact (Hdisk "notes.txt").
Defined.

(** * The uploads of an analysis from files *)





(** * More on the analysis from files: failures and the empty list *)






(** With no input file at all the analysis still runs: nothing is written
    or uploaded, the poller has nothing to fetch, and, with a system
    instruction and a prompt the client accepts, neither of them empty, the
    session is opened on a user turn without parts; the reply to the prompt
    is returned and the disk is untouched. *)
Theorem analyze_video_from_files_no_files
    (fuel : nat) (model_name : string) (cfg : GenerationConfig)
    (instr prompt : string) (w : World) (reply : string)
    (rest : list (Exception + string)) :
  instr <> EmptyString -> prompt <> EmptyString ->
  chat_script w = inr reply :: rest ->
  exists model setup w',
    analyze_video_from_files fuel [] model_name cfg instr prompt w =
    (Return reply, w') /\
    (setup = [] \/ setup = [EvConfigure (GEMINI_API_KEY w); EvNewModel model]) /\
    (let s := mkChat model [mkContent "user" []] in
     trace w' =
     trace w ++
     [EvConfigure (GEMINI_API_KEY w);
      EvPrint ("Waiting for file processing..." +:+ nl);
      EvPrint ("...all files ready" +:+ nl);
      EvPrint nl] ++
     setup ++ [EvStartChat s; EvSendMessage s prompt]) /\
    fs w' = fs w /\
    upload_script w' = upload_script w.
Proof.
  intros Hinstr Hprompt Hchat.
  unfold analyze_video_from_files. cbn [save_and_upload].
  erewrite bind_Return by apply ret_run. cbn beta iota.
  erewrite bind_Return by apply wait_for_files_active_nil.
  match goal with
  | |- exists _ _ _, (_ ≫= _) ?w0 = _ /\ _ =>
      destruct (load_run model_name cfg instr w0 Hinstr)
        as (model & setup & cache & nid & E & Hsetup)
  end.
  exists model, setup. eexists.
  erewrite bind_Return by exact E.
  erewrite bind_Return by apply start_chat_run.
  erewrite bind_Return by (apply send_message_reply; [exact Hprompt|exact Hchat]).
  cbn [remove_temp_videos for_each map].
  erewrite bind_Return by apply ret_run.
  split; [apply ret_run|]. split; [exact Hsetup|].
  unfold_world. repeat split. by rewrite <- !app_assoc.
Qed.

Lemma analyze_video_from_files_no_files_witness :
  let w := set_chat_script [inr "Nothing to analyze."] empty_world in
  "Analyze." <> EmptyString /\ "Summarize." <> EmptyString /\
  chat_script w = [inr "Nothing to analyze."] /\
  exists model setup w',
    analyze_video_from_files 0 [] "gemini-1.5-flash" script_generation_config
      "Analyze." "Summarize." w =
    (Return "Nothing to analyze.", w') /\
    (setup = [] \/ setup = [EvConfigure (GEMINI_API_KEY w); EvNewModel model]) /\
    (let s := mkChat model [mkContent "user" []] in
     trace w' =
     trace w ++
     [EvConfigure (GEMINI_API_KEY w);
      EvPrint ("Waiting for file processing..." +:+ nl);
      EvPrint ("...all files ready" +:+ nl);
      EvPrint nl] ++
     setup ++ [EvStartChat s; EvSendMessage s "Summarize."]) /\
    fs w' = fs w /\
    upload_script w' = upload_script w.
Proof.
  intros w. split; [discriminate|]. split; [discriminate|]. split; [reflexivity|].
  apply (analyze_video_from_files_no_files 0 "gemini-1.5-flash"
           script_generation_config "Analyze." "Summarize." w
           "Nothing to analyze." []); [discriminate|discriminate|reflexivity].
Defined.

(** * More on the MIME type and on start-up *)

Lemma has_dot_app a b : has_dot (a +:+ b) = has_dot a || has_dot b.
Proof.
  induction a as [|c a IH]; [done|].
  change (String c a +:+ b) with (String c (a +:+ b)). cbn [has_dot].
  by rewrite IH, orb_assoc.
Qed.

(** A string has no dot, or it splits at its last dot. *)
Lemma last_dot s :
  dotless s \/ exists pre sub, s = pre +:+ String "." sub /\ dotless sub.
Proof.
  unfold dotless. induction s as [|c s IH]; [by left|].
  destruct IH as [Hs|(pre & sub & -> & Hsub)].
  - destruct (Ascii.eqb_spec c ".") as [->|Hc].
    + right. by exists EmptyString, s.
    + left. cbn [has_dot]. rewrite Hs.
      by destruct (Ascii.eqb_spec c ".").
  - right. by exists (String c pre), sub.
Qed.

(** The subtype of the MIME type is the part of the temporary path after its
    last dot, and the whole path when the path has no dot. So a file whose
    name has no dot is uploaded as [video/temp_video_] followed by its
    name. *)
Theorem video_mime_type_subtype :
  (forall path : string,
      exists sub,
        video_mime_type path = "video/" +:+ sub /\
        dotless sub /\
        (path = sub \/ exists pre, path = pre +:+ "." +:+ sub)) /\
  (forall vf : UploadedFile,
      dotless (upload_name vf) ->
      upload_event vf =
      EvUploadFile ("temp_video_" +:+ upload_name vf)
        (Some ("video/temp_video_" +:+ upload_name vf)) (upload_bytes vf)).
Proof.
  assert (forall s, dotless s -> video_mime_type s = "video/" +:+ s) as Hwhole.
  { intros s Hs. unfold video_mime_type. by rewrite split_dotless. }
  split.
  - intros path. destruct (last_dot path) as [Hpath|(pre & sub & -> & Hsub)].
    + exists path. split; [by apply Hwhole|]. split; [done|by left].
    + exists sub. split; [|split; [done|right; by exists pre]].
      unfold video_mime_type. rewrite split_app.
      rewrite last_item_app by apply split_nonempty. by rewrite split_dotless.
  - intros vf Hname. unfold upload_event, temp_video_path.
    rewrite Hwhole; [done|]. unfold dotless in *. by rewrite has_dot_app, Hname.
Qed.

Lemma video_mime_type_subtype_witness :
  dotless (upload_name (mkUpload "clip" [x01%byte])) /\
  upload_event (mkUpload "clip" [x01%byte]) =
  EvUploadFile "temp_video_clip" (Some "video/temp_video_clip") [x01%byte].
Proof.
  split; [reflexivity|].
  apply (proj2 video_mime_type_subtype (mkUpload "clip" [x01%byte])).
  reflexivity.
Defined.

(** Where the key comes from: a [GEMINI_API_KEY] of the process environment
    wins over the one of the [.env] file, which is used only when the
    environment has none; start-up calls no service and leaves the disk
    alone. *)
Theorem module_start_key_source (dotenv : gmap string string) (w : World) :
  exists w',
    module_start dotenv w = (Return tt, w') /\
    GEMINI_API_KEY w' =
      match environ w !! "GEMINI_API_KEY" with
      | Some key => Some key
      | None => dotenv !! "GEMINI_API_KEY"
      end /\
    trace w' = trace w /\
    fs w' = fs w.
Proof.
  eexists. split; [apply module_start_run|]. unfold_world.
  split; [|done]. rewrite lookup_union.
  by destruct (environ w !! "GEMINI_API_KEY"), (dotenv !! "GEMINI_API_KEY").
Qed.

(** * The page *)

Lemma try_except_run {A} (body : M A) (handler : Exception -> M A) w :
  try_except body handler w =
  match body w with
  | (Raise e, w') => handler e w'
  | r => r
  end.
Proof. reflexivity. Qed.

(** What a guarded analysis puts inside the spinner: the summary when the
    analysis returned, the error box when it raised; the world is the one
    the analysis left. *)
Lemma guarded_run (analysis : M string) w :
  try_except (summary_text ← analysis; mret (show_summary summary_text))
    (fun e => mret (show_error e)) w =
  match (analysis w).1 with
  | Return summary_text => (Return (show_summary summary_text), (analysis w).2)
  | Raise e => (Return (show_error e), (analysis w).2)
  | Diverge => (Diverge, (analysis w).2)
  end.
Proof.
  rewrite try_except_run, bind_run.
  by destruct (analysis w) as [[text|e|] w1].
Qed.

(** No exception leaves the page: whatever the widgets hold and whatever the
    service does, a run of the main area does not raise. *)
Theorem main_area_never_raises (fuel : nat) (ui : Widgets) (w : World) (e : Exception) :
  (main_area fuel ui w).1 <> Raise e.
Proof.
  unfold main_area. rewrite bind_run.
  destruct (button ui); [|by rewrite ret_run].
  destruct (String.eqb (input_option ui) "Upload Video File(s)").
  - destruct (video_files ui) as [[|file files]|]; rewrite ?ret_run; try done.
    rewrite bind_run, guarded_run.
    by destruct (analyze_video_from_files _ _ _ _ _ _ _) as [[text|e'|] w1].
  - destruct (String.eqb (input_option ui) "Enter Video URL");
      [|by rewrite ret_run].
    destruct (video_url ui) as [[|c url]|]; rewrite ?ret_run; try done.
    rewrite bind_run, guarded_run.
    by destruct (analyze_video_from_url _ _ _ _ _ _) as [[text|e'|] w1].
Qed.

(** Nothing happens without the button and without input: when the button
    was not pressed, the page shows the hint; when it was pressed with no
    uploaded file, or with an empty URL, the page shows the warning of that
    mode. In all three cases no call leaves the process and the world is as
    it was. *)
Theorem main_area_idle (fuel : nat) (ui : Widgets) (w : World) :
  (button ui = false ->
   main_area fuel ui w =
   (Return [ElSubheader "Video Analysis Output";
            ElInfo "Upload video file(s) or enter a video URL in the sidebar to analyze."],
    w)) /\
  (button ui = true -> input_option ui = "Upload Video File(s)" ->
   file_uploader ui = [] ->
   main_area fuel ui w =
   (Return [ElSubheader "Video Analysis Output";
            ElWarning "Please upload video file(s)."], w)) /\
  (button ui = true -> input_option ui = "Enter Video URL" ->
   text_input ui = EmptyString ->
   main_area fuel ui w =
   (Return [ElSubheader "Video Analysis Output";
            ElWarning "Please enter a video URL."], w)).
Proof.
  unfold main_area, video_files, video_url. split; [|split].
  - by intros ->.
  - by intros -> -> ->.
  - by intros -> -> ->.
Qed.

Lemma main_area_idle_witness :
  let idle := mkWidgets "Enter Video URL" [] "https://example.com/v.mp4"
                "gemini-1.5-flash" "Analyze." "Summarize." false in
  let no_file := mkWidgets "Upload Video File(s)" [] EmptyString
                   "gemini-1.5-flash" "Analyze." "Summarize." true in
  let no_url := mkWidgets "Enter Video URL" [] EmptyString
                  "gemini-1.5-flash" "Analyze." "Summarize." true in
  main_area 0 idle empty_world =
  (Return [ElSubheader "Video Analysis Output";
           ElInfo "Upload video file(s) or enter a video URL in the sidebar to analyze."],
   empty_world) /\
  main_area 0 no_file empty_world =
  (Return [ElSubheader "Video Analysis Output";
           ElWarning "Please upload video file(s)."], empty_world) /\
  main_area 0 no_url empty_world =
  (Return [ElSubheader "Video Analysis Output";
           ElWarning "Please enter a video URL."], empty_world).
Proof.
  intros idle no_file no_url. split; [|split].
  - apply (proj1 (main_area_idle 0 idle empty_world)). reflexivity.
  - apply (proj1 (proj2 (main_area_idle 0 no_file empty_world))); reflexivity.
  - apply (proj2 (proj2 (main_area_idle 0 no_url empty_world))); reflexivity.
Defined.

Lemma url_option_not_files :
  String.eqb "Enter Video URL" "Upload Video File(s)" = false.
Proof. reflexivity. Qed.

(** URL mode, end to end: with the button pressed, a URL entered and two
    texts in the sidebar that the client accepts, neither of them empty, the
    page runs the analysis of that URL with the selected model, the
    configuration of the script and the two texts, and shows inside the
    spinner what the service answered: the reply, as markdown and as raw
    text in the expander, or the message of the error behind
    [An error occurred: ]. *)
Theorem main_area_url (fuel : nat) (ui : Widgets) (w : World) (c : ascii) (url : string) :
  button ui = true ->
  input_option ui = "Enter Video URL" ->
  text_input ui = String c url ->
  system_instruction_text ui <> EmptyString ->
  input_prompt_text ui <> EmptyString ->
  let run :=
    analyze_video_from_url (String c url) (selected_model_name ui)
      script_generation_config (system_instruction_text ui)
      (input_prompt_text ui) w in
  main_area fuel ui w =
  (Return
     [ElSubheader "Video Analysis Output";
      ElSpinner "Analyzing video from URL..."
        match chat_script w with
        | inr reply :: _ =>
            [ElMarkdown reply;
             ElExpander "View raw markdown with Copy Button" [ElCode reply "markdown"]]
        | inl e :: _ => [ElError ("An error occurred: " +:+ exc_msg e)]
        | [] => [ElError ("An error occurred: " +:+ input_prompt_text ui)]
        end],
   run.2).
Proof.
  intros Hbutton Hoption Hurl Hinstr Hprompt run.
  pose proof (analyze_video_from_url_outcome (String c url)
                (selected_model_name ui) script_generation_config
                (system_instruction_text ui) (input_prompt_text ui) w
                Hinstr Hprompt) as Hout.
  fold run in Hout.
  unfold main_area, video_url.
  rewrite Hbutton, Hoption, Hurl, url_option_not_files, String.eqb_refl.
  rewrite bind_run, bind_run, guarded_run. fold run. rewrite Hout.
  by destruct (chat_script w) as [|[e|reply] rest].
Qed.

Lemma main_area_url_witness :
  let ui := mkWidgets "Enter Video URL" [] "https://example.com/v.mp4"
              "gemini-1.5-flash" "Analyze." "Summarize." true in
  let w := set_chat_script [inl (mkException "ResourceExhausted" "quota")] empty_world in
  (main_area 0 ui w).1 =
  Return
    [ElSubheader "Video Analysis Output";
     ElSpinner "Analyzing video from URL..."
       [ElError "An error occurred: quota"]].
Proof.
  intros ui w.
  rewrite (main_area_url 0 ui w "h" "ttps://example.com/v.mp4");
    [reflexivity|reflexivity|reflexivity|reflexivity|discriminate|discriminate].
Defined.


